(** * kvbase: the bbolt and goleveldb adapters behind the [Backend] interface

    The two Go files of the repository ([bboltdb.go] and the goleveldb
    adapter) are embedded as state-passing functions over a model of the
    engine each one wraps.  A connection ([database.Connection]) is the
    content of the store; every method takes the store before the call and
    returns the store after it together with the Go results.

    Conventions.
    - Go [string] and [[]byte] are both [string] here (a sequence of 8-bit
      characters), so the conversions [[]byte(s)] and [string(b)] are the
      identity.
    - A Go [error] result is [option error], [None] being [nil].
    - A Go [int] is a [Z] kept in the signed 64-bit range by [wrap64].
    - [return x, f()] where the closure passed to [f] assigns [x]: the gc
      toolchain reads [x] after the call, so the returned [x] is the
      assigned one.
    - The engines are modelled without I/O failures, and one call runs at
      a time, so a slice handed out by a transaction still holds the stored
      bytes when the adapter decodes it. *)

From Stdlib Require Import ZArith Ascii String.
From stdpp Require Import gmap strings list fin_maps sorting.

Local Open Scope string_scope.
Local Open Scope Z_scope.

(** ** Go basics *)

Inductive error : Type :=
  | errors_New (text : string)          (* errors.New(text) *)
  | bbolt_ErrBucketNameRequired
  | bbolt_ErrBucketNotFound
  | bbolt_ErrIncompatibleValue
  | bbolt_ErrKeyRequired
  | bbolt_ErrKeyTooLarge
  | bbolt_ErrValueTooLarge
  | leveldb_ErrNotFound
  | json_Error (text : string)          (* any error of encoding/json *)
  | runtime_nil_dereference.            (* a panic, not a returned error *)

(** The error kinds of the contract. *)
Inductive ErrorKind : Type :=
  AlreadyExists | NotFound | SerializationFailure | EngineFailure.

Definition kind (e : error) : ErrorKind :=
  match e with
  | errors_New text =>
      if String.eqb text "key already exists" then AlreadyExists
      else if String.eqb text "key does not exist" then NotFound
      else EngineFailure
  | leveldb_ErrNotFound => NotFound
  | json_Error _ => SerializationFailure
  | _ => EngineFailure
  end.

(** Signed 64-bit wrap-around of Go's [int]. *)
Definition wrap64 (z : Z) : Z := (z + 2 ^ 63) mod 2 ^ 64 - 2 ^ 63.

(** [len(x)] as a Go [int]. *)
Definition int_of_nat (n : nat) : Z := wrap64 (Z.of_nat n).

(** The bytes of a slice that may be nil. *)
Definition bytes_of (data : option string) : string := default EmptyString data.

(** [encoding/json] on the caller-defined value type.  [json_Unmarshal data
    model] is [json.Unmarshal(data, &model)]: the content of [model] after
    the call, and the error. *)
Class JSON (Model : Type) : Type := {
  json_Marshal : Model → error + string;
  json_Unmarshal : string → Model → Model * option error;
}.

(** strings.HasPrefix and strings.TrimPrefix *)
Fixpoint HasPrefix (s prefix : string) {struct prefix} : bool :=
  match prefix with
  | EmptyString => true
  | String p prefix' =>
      match s with
      | EmptyString => false
      | String c s' => if decide (c = p) then HasPrefix s' prefix' else false
      end
  end.

Definition TrimPrefix (s prefix : string) : string :=
  if HasPrefix s prefix
  then String.substring (String.length prefix)
                        (String.length s - String.length prefix) s
  else s.

(** Items of a store in the byte order of their keys, the order in which
    both engines iterate. *)
Definition key_le (x y : string * string) : Prop := String.leb x.1 y.1 = true.

#[global] Instance key_le_dec (x y : string * string) : Decision (key_le x y) :=
  decide (String.leb x.1 y.1 = true).

Definition sorted_items (m : gmap string string) : list (string * string) :=
  merge_sort key_le (map_to_list m).

(** ** go.etcd.io/bbolt *)
Module bbolt.

Abbreviation Bucket := (gmap string string).
Abbreviation DB := (gmap string (gmap string string)).
Abbreviation Tx := (gmap string (gmap string string)).

Definition MaxKeySize : Z := 32768.
Definition MaxValueSize : Z := 2 ^ 31 - 2.

(** db.Update(fn): a failed transaction is rolled back. *)
Definition DB_Update (fn : Tx → Tx * option error) (db : DB)
  : DB * option error :=
  let '(tx, err) := fn db in
  match err with
  | Some e => (db, Some e)
  | None => (tx, None)
  end.

(** db.View(fn): [A] is what the closure assigns to captured variables. *)
Definition DB_View {A} (fn : Tx → A * option error) (db : DB)
  : A * option error := fn db.

(** tx.Bucket(name): [None] is the nil bucket. *)
Definition Tx_Bucket (tx : Tx) (name : string) : option Bucket := tx !! name.

Definition Tx_CreateBucketIfNotExists (tx : Tx) (name : string)
  : Tx * (error + Bucket) :=
  if decide (name = EmptyString) then (tx, inl bbolt_ErrBucketNameRequired)
  else match tx !! name with
       | Some b => (tx, inr b)
       | None => (<[name := ∅]> tx, inr ∅)
       end.

(** tx.DeleteBucket(name).  The cursor of a transaction without buckets
    stops on a nil key, which bytes.Equal takes for the empty name; there is
    no bucket flag on it, hence ErrIncompatibleValue. *)
Definition Tx_DeleteBucket (tx : Tx) (name : string) : Tx * option error :=
  match tx !! name with
  | None =>
      if decide (name = EmptyString ∧ tx = ∅)
      then (tx, Some bbolt_ErrIncompatibleValue)
      else (tx, Some bbolt_ErrBucketNotFound)
  | Some _ => (delete name tx, None)
  end.

Definition Bucket_Get (b : Bucket) (key : string) : option string := b !! key.

(** The keys and values that b.Put takes. *)
Definition storable (key value : string) : Prop :=
  key ≠ EmptyString ∧
  Z.of_nat (String.length key) ≤ MaxKeySize ∧
  Z.of_nat (String.length value) ≤ MaxValueSize.

(** b.Put(key, value) on the bucket [b] called [name] of [tx]. *)
Definition Bucket_Put (tx : Tx) (name : string) (b : Bucket)
    (key value : string) : Tx * option error :=
  if decide (key = EmptyString) then (tx, Some bbolt_ErrKeyRequired)
  else if Z.of_nat (String.length key) >? MaxKeySize
       then (tx, Some bbolt_ErrKeyTooLarge)
  else if Z.of_nat (String.length value) >? MaxValueSize
       then (tx, Some bbolt_ErrValueTooLarge)
  else (<[name := <[key := value]> b]> tx, None).

(** b.Delete(key): deleting an absent key is not an error. *)
Definition Bucket_Delete (tx : Tx) (name : string) (b : Bucket)
    (key : string) : Tx * option error :=
  (<[name := delete key b]> tx, None).

(** b.Stats().KeyN *)
Definition Bucket_KeyN (b : Bucket) : Z := int_of_nat (size b).

(** b.ForEach(fn): [fn] is called on the pairs in key order and the first
    error stops the iteration; [S] is the state the closure assigns. *)
Fixpoint for_each {S} (fn : string → string → S → S * option error)
    (items : list (string * string)) (s : S) : S * option error :=
  match items with
  | [] => (s, None)
  | (key, value) :: rest =>
      let '(s', err) := fn key value s in
      match err with
      | Some e => (s', Some e)
      | None => for_each fn rest s'
      end
  end.

Definition Bucket_ForEach {S} (b : Bucket)
    (fn : string → string → S → S * option error) (s : S)
  : S * option error :=
  for_each fn (sorted_items b) s.

End bbolt.

(** ** bboltdb.go *)
Module BboltBackend.
Import bbolt.

(** The records of a bucket; a bucket that does not exist has none. *)
Definition records (db : DB) (bucket : string) : Bucket :=
  default ∅ (db !! bucket).

(** The bytes stored under (bucket, key), if any. *)
Definition record (db : DB) (bucket key : string) : option string :=
  records db bucket !! key.

Section Methods.
Context {Model : Type} `{!JSON Model}.

Definition checkBucket (bucket : string) (db : DB) : DB * option error :=
  DB_Update (λ tx,
    let '(tx', r) := Tx_CreateBucketIfNotExists tx bucket in
    match r with
    | inl err => (tx', Some err)
    | inr _ => (tx', None)
    end) db.

Definition view (bucket key : string) (db : DB)
  : DB * (option string * option error) :=
  let '(db, err) := checkBucket bucket db in
  match err with
  | Some e => (db, (None, Some e))
  | None =>
      (db, DB_View (λ tx,
             match Tx_Bucket tx bucket with
             | None => (None, Some runtime_nil_dereference)
             | Some b =>
                 let data := Bucket_Get b key in
                 match data with
                 | None => (data, Some (errors_New "key does not exist"))
                 | Some _ => (data, None)
                 end
             end) db)
  end.

Definition write (bucket key : string) (model : Model) (db : DB)
  : DB * option error :=
  match json_Marshal model with
  | inl err => (db, Some err)
  | inr data =>
      let '(db, err) := checkBucket bucket db in
      match err with
      | Some e => (db, Some e)
      | None =>
          DB_Update (λ tx,
            match Tx_Bucket tx bucket with
            | None => (tx, Some runtime_nil_dereference)
            | Some b => Bucket_Put tx bucket b key data
            end) db
      end
  end.

Definition Count (bucket : string) (db : DB) : DB * (Z * option error) :=
  let counter := 0 in
  let '(db, err) := checkBucket bucket db in
  match err with
  | Some e => (db, (0, Some e))
  | None =>
      (db, DB_View (λ tx,
             match Tx_Bucket tx bucket with
             | None => (counter, Some runtime_nil_dereference)
             | Some b => (Bucket_KeyN b, None)
             end) db)
  end.

Definition Create (bucket key : string) (model : Model) (db : DB)
  : DB * option error :=
  let '(db, (_, err)) := view bucket key db in
  match err with
  | None => (db, Some (errors_New "key already exists"))
  | Some _ => write bucket key model db
  end.

Definition Delete (bucket key : string) (db : DB) : DB * option error :=
  let '(db, (_, err)) := view bucket key db in
  match err with
  | Some e => (db, Some e)
  | None =>
      DB_Update (λ tx,
        match Tx_Bucket tx bucket with
        | None => (tx, Some runtime_nil_dereference)
        | Some b => Bucket_Delete tx bucket b key
        end) db
  end.

Definition Drop (bucket : string) (db : DB) : DB * option error :=
  DB_Update (λ tx, Tx_DeleteBucket tx bucket) db.

(** The closure of [Get]: it decodes into the one [model] of the call
    and stores that [model] under the key.  What is stored is the
    interface value: here its content at that step.  When the caller passes
    a pointer, the Go mapping holds that one pointer under every key, and
    every entry shows the record decoded last; so the keys and the error
    of the mapping are the code's for every argument, its values only for
    an argument that is no pointer.  The properties below speak of the
    keys and the error. *)
Definition Get_step (key value : string)
    (s : Model * gmap string Model)
  : (Model * gmap string Model) * option error :=
  let '(model, results) := s in
  let '(model, err) := json_Unmarshal value model in
  match err with
  | Some e => ((model, results), Some e)
  | None => ((model, <[key := model]> results), None)
  end.

(** The first result is [None] for the nil map pointer. *)
Definition Get (bucket : string) (model : Model) (db : DB)
  : DB * (option (gmap string Model) * option error) :=
  let results : gmap string Model := ∅ in
  let '(db, err) := checkBucket bucket db in
  match err with
  | Some e => (db, (None, Some e))
  | None =>
      let '(results, err) :=
        DB_View (λ tx,
          match Tx_Bucket tx bucket with
          | None => (results, Some runtime_nil_dereference)
          | Some b =>
              let '((_, results), err) :=
                Bucket_ForEach b Get_step (model, results) in
              (results, err)
          end) db in
      (db, (Some results, err))
  end.

(** The second result is the content of the caller's [model]. *)
Definition Read (bucket key : string) (model : Model) (db : DB)
  : DB * (Model * option error) :=
  let '(db, (data, err)) := view bucket key db in
  match err with
  | Some e => (db, (model, Some e))
  | None =>
      (db, json_Unmarshal (bytes_of data) model)
  end.

Definition Update (bucket key : string) (model : Model) (db : DB)
  : DB * option error :=
  let '(db, (_, err)) := view bucket key db in
  match err with
  | Some e => (db, Some e)
  | None => write bucket key model db
  end.

(** The stores the adapter can produce, starting from a new file. *)
Inductive reachable : DB → Prop :=
  | reachable_new : reachable ∅
  | reachable_Count bucket db :
      reachable db → reachable (Count bucket db).1
  | reachable_Create bucket key model db :
      reachable db → reachable (Create bucket key model db).1
  | reachable_Delete bucket key db :
      reachable db → reachable (Delete bucket key db).1
  | reachable_Drop bucket db :
      reachable db → reachable (Drop bucket db).1
  | reachable_Get bucket model db :
      reachable db → reachable (Get bucket model db).1
  | reachable_Read bucket key model db :
      reachable db → reachable (Read bucket key model db).1
  | reachable_Update bucket key model db :
      reachable db → reachable (Update bucket key model db).1.

End Methods.
End BboltBackend.

(** ** github.com/syndtr/goleveldb *)
Module leveldb.

Abbreviation DB := (gmap string string).

Definition DB_Get (db : DB) (key : string) : option string * option error :=
  match db !! key with
  | Some value => (Some value, None)
  | None => (None, Some leveldb_ErrNotFound)
  end.

Definition DB_Put (db : DB) (key value : string) : DB * option error :=
  (<[key := value]> db, None).

(** db.Delete(key, nil): deleting an absent key is not an error. *)
Definition DB_Delete (db : DB) (key : string) : DB * option error :=
  (delete key db, None).

(** util.Range: [Start] is included, [Limit] is not; [None] is the nil
    limit, which leaves the range open. *)
Record Range : Type := { Start : string; Limit : option string }.

Definition succ_byte (c : ascii) : ascii := ascii_of_N (N_of_ascii c + 1).

(** The limit of util.BytesPrefix: the prefix cut after its last byte
    below 0xff, that byte incremented. *)
Fixpoint prefix_limit (prefix : string) : option string :=
  match prefix with
  | EmptyString => None
  | String c rest =>
      match prefix_limit rest with
      | Some limit => Some (String c limit)
      | None =>
          if (N_of_ascii c <? 255)%N
          then Some (String (succ_byte c) EmptyString)
          else None
      end
  end.

Definition BytesPrefix (prefix : string) : Range :=
  {| Start := prefix; Limit := prefix_limit prefix |}.

Definition in_range (slice : Range) (key : string) : bool :=
  String.leb (Start slice) key &&
  match Limit slice with
  | None => true
  | Some limit => String.ltb key limit
  end.

(** db.NewIterator(slice, nil): the pairs of the range in key order, as
    they are when the iterator is made. *)
Definition NewIterator (db : DB) (slice : Range) : list (string * string) :=
  filter (λ kv, in_range slice kv.1 = true) (sorted_items db).

(** iter.Error() *)
Definition Iterator_Error (iter : list (string * string)) : option error :=
  None.

End leveldb.

(** ** The goleveldb adapter *)
Module LevelBackend.
Import leveldb.

(** The bytes stored under (bucket, key), if any. *)
Definition record (db : DB) (bucket key : string) : option string :=
  db !! ((bucket +:+ "_") +:+ key).

Section Methods.
Context {Model : Type} `{!JSON Model}.

Fixpoint Count_loop (iter : list (string * string)) (counter : Z) : Z :=
  match iter with
  | [] => counter
  | _ :: iter => Count_loop iter (wrap64 (counter + 1))
  end.

Definition Count (bucket : string) (db : DB) : DB * (Z * option error) :=
  let counter := 0 in
  let iter := NewIterator db (BytesPrefix (bucket +:+ "_")) in
  let counter := Count_loop iter counter in
  match Iterator_Error iter with
  | Some e => (db, (0, Some e))
  | None => (db, (counter, None))
  end.

Definition Create (bucket key : string) (model : Model) (db : DB)
  : DB * option error :=
  let '(_, err) := DB_Get db ((bucket +:+ "_") +:+ key) in
  match err with
  | None => (db, Some (errors_New "key already exists"))
  | Some _ =>
      match json_Marshal model with
      | inl err => (db, Some err)
      | inr data =>
          let '(db, err) := DB_Put db ((bucket +:+ "_") +:+ key) data in
          match err with
          | Some e => (db, Some e)
          | None => (db, None)
          end
      end
  end.

Definition Delete (bucket key : string) (db : DB) : DB * option error :=
  let '(_, err) := DB_Get db ((bucket +:+ "_") +:+ key) in
  match err with
  | Some e => (db, Some e)
  | None =>
      let '(db, err) := DB_Delete db ((bucket +:+ "_") +:+ key) in
      match err with
      | Some e => (db, Some e)
      | None => (db, None)
      end
  end.

Fixpoint Drop_loop (iter : list (string * string)) (db : DB)
  : DB * option error :=
  match iter with
  | [] => (db, None)
  | (key, _) :: iter =>
      let '(db, err) := DB_Delete db key in
      match err with
      | Some e => (db, Some e)
      | None => Drop_loop iter db
      end
  end.

Definition Drop (bucket : string) (db : DB) : DB * option error :=
  let iter := NewIterator db (BytesPrefix (bucket +:+ "_")) in
  let '(db, err) := Drop_loop iter db in
  match err with
  | Some e => (db, Some e)
  | None =>
      match Iterator_Error iter with
      | Some e => (db, Some e)
      | None => (db, None)
      end
  end.

(** The loop of [Get].  As in the bbolt adapter, [results[key] = model]
    stores the interface value, here its content at that step; with a
    pointer argument every entry of the Go mapping is that one pointer.
    The keys and the error are the code's for every argument. *)
Fixpoint Get_loop (bucket : string) (iter : list (string * string))
    (model : Model) (results : gmap string Model)
  : error + gmap string Model :=
  match iter with
  | [] => inr results
  | (k, value) :: iter =>
      let key := TrimPrefix k (bucket +:+ "_") in
      let '(model, err) := json_Unmarshal value model in
      match err with
      | Some e => inl e
      | None => Get_loop bucket iter model (<[key := model]> results)
      end
  end.

(** The first result is [None] for the nil map pointer. *)
Definition Get (bucket : string) (model : Model) (db : DB)
  : DB * (option (gmap string Model) * option error) :=
  let results : gmap string Model := ∅ in
  let iter := NewIterator db (BytesPrefix (bucket +:+ "_")) in
  match Get_loop bucket iter model results with
  | inl e => (db, (None, Some e))
  | inr results =>
      match Iterator_Error iter with
      | Some e => (db, (None, Some e))
      | None => (db, (Some results, None))
      end
  end.

(** The second result is the content of the caller's [model]. *)
Definition Read (bucket key : string) (model : Model) (db : DB)
  : DB * (Model * option error) :=
  let '(data, err) := DB_Get db ((bucket +:+ "_") +:+ key) in
  match err with
  | Some e => (db, (model, Some e))
  | None => (db, json_Unmarshal (bytes_of data) model)
  end.

Definition Update (bucket key : string) (model : Model) (db : DB)
  : DB * option error :=
  let '(_, err) := DB_Get db ((bucket +:+ "_") +:+ key) in
  match err with
  | Some e => (db, Some e)
  | None =>
      match json_Marshal model with
      | inl err => (db, Some err)
      | inr data =>
          let '(db, err) := DB_Put db ((bucket +:+ "_") +:+ key) data in
          match err with
          | Some e => (db, Some e)
          | None => (db, None)
          end
      end
  end.

End Methods.
End LevelBackend.

(** ** A caller's value type

    A value is a Go [bool] or a channel.  [encoding/json] writes a bool as
    [true] or [false] and reads it back from that text; it has no encoding
    for a channel. *)
Module Sample.

Inductive value : Type := VBool (b : bool) | VChan.

Definition Marshal (v : value) : error + string :=
  match v with
  | VBool true => inr "true"
  | VBool false => inr "false"
  | VChan => inl (json_Error "json: unsupported type: chan int")
  end.

Definition Unmarshal (data : string) (model : value) : value * option error :=
  match model with
  | VChan =>
      (model, Some (json_Error "json: cannot unmarshal into Go value of type chan int"))
  | VBool _ =>
      if String.eqb data "true" then (VBool true, None)
      else if String.eqb data "false" then (VBool false, None)
      else (model, Some (json_Error "invalid character"))
  end.

#[global] Instance json : JSON value :=
  {| json_Marshal := Marshal; json_Unmarshal := Unmarshal |}.

(** Two users in a new store of each adapter. *)
Definition users_bbolt : gmap string (gmap string string) :=
  (BboltBackend.Create "users" "u2" (VBool false)
     (BboltBackend.Create "users" "u1" (VBool true) ∅).1).1.

Definition users_level : gmap string string :=
  (LevelBackend.Create "users" "u2" (VBool false)
     (LevelBackend.Create "users" "u1" (VBool true) ∅).1).1.

End Sample.

(** ** Stores and names of the goleveldb adapter *)

(** A name without the separator that [bucket+"_"+key] puts between the
    bucket and the key. *)
Fixpoint underscore_free (s : string) : bool :=
  match s with
  | EmptyString => true
  | String c s' => if decide (c = "_"%char) then false else underscore_free s'
  end.

Module LevelStores.
Section Stores.
Context {Model : Type} `{!JSON Model}.

(** The stores the goleveldb adapter can produce, starting from a new
    directory. *)
Inductive reachable : gmap string string → Prop :=
  | reachable_new : reachable ∅
  | reachable_Count bucket db :
      reachable db → reachable (LevelBackend.Count bucket db).1
  | reachable_Create bucket key model db :
      reachable db → reachable (LevelBackend.Create bucket key model db).1
  | reachable_Delete bucket key db :
      reachable db → reachable (LevelBackend.Delete bucket key db).1
  | reachable_Drop bucket db :
      reachable db → reachable (LevelBackend.Drop bucket db).1
  | reachable_Get bucket model db :
      reachable db → reachable (LevelBackend.Get bucket model db).1
  | reachable_Read bucket key model db :
      reachable db → reachable (LevelBackend.Read bucket key model db).1
  | reachable_Update bucket key model db :
      reachable db → reachable (LevelBackend.Update bucket key model db).1.

End Stores.
End LevelStores.

(** * Properties *)

(** ** Strings *)
Section strings.
Implicit Types s p r : string.

Lemma app_cons c s r : String c s +:+ r = String c (s +:+ r).
Proof. reflexivity. Qed.

Lemma app_assoc s p r : (s +:+ p) +:+ r = s +:+ (p +:+ r).
Proof.
  induction s as [|c s IH]; [done|].
  by rewrite !app_cons, IH.
Qed.

Lemma HasPrefix_app p s : HasPrefix (p +:+ s) p = true.
Proof.
  induction p as [|c p IH]; [done|].
  rewrite app_cons. simpl. by rewrite decide_True.
Qed.

Lemma HasPrefix_inv s p : HasPrefix s p = true → ∃ r, s = p +:+ r.
Proof.
  revert s. induction p as [|c p IH]; intros s Hs.
  - by exists s.
  - destruct s as [|a s]; [done|]. simpl in Hs.
    case_decide as Hac; [|done]. subst a.
    destruct (IH _ Hs) as [r ->]. by exists r.
Qed.


Lemma length_app s r :
  String.length (s +:+ r) = (String.length s + String.length r)%nat.
Proof.
  induction s as [|c s IH]; [done|].
  rewrite app_cons. simpl. by rewrite IH.
Qed.

Lemma substring_all s : String.substring 0 (String.length s) s = s.
Proof. induction s as [|c s IH]; [done|]. simpl. by rewrite IH. Qed.

Lemma substring_skip p s n :
  String.substring (String.length p) n (p +:+ s) = String.substring 0 n s.
Proof.
  induction p as [|c p IH]; [done|].
  rewrite app_cons. simpl. apply IH.
Qed.

Lemma TrimPrefix_app p s : TrimPrefix (p +:+ s) p = s.
Proof.
  unfold TrimPrefix. rewrite HasPrefix_app, substring_skip, length_app.
  replace (String.length p + String.length s - String.length p)%nat
    with (String.length s) by lia.
  apply substring_all.
Qed.

(** On the keys that have the prefix, trimming it is injective. *)
Lemma TrimPrefix_inj p s r :
  HasPrefix s p = true → HasPrefix r p = true →
  TrimPrefix s p = TrimPrefix r p → s = r.
Proof.
  intros [s' ->]%HasPrefix_inv [r' ->]%HasPrefix_inv.
  rewrite !TrimPrefix_app. by intros ->.
Qed.

End strings.

(** ** The byte order and util.BytesPrefix *)
Section byte_order.

Lemma ascii_compare_refl c : Ascii.compare c c = Eq.
Proof. apply N.compare_refl. Qed.

Lemma N_of_succ_byte c :
  (N_of_ascii c < 255)%N → N_of_ascii (leveldb.succ_byte c) = (N_of_ascii c + 1)%N.
Proof. intros Hc. unfold leveldb.succ_byte. apply N_ascii_embedding. lia. Qed.

Lemma leb_empty_l s : String.leb EmptyString s = true.
Proof. by destruct s. Qed.

Lemma leb_cons a s c r :
  String.leb (String a s) (String c r) =
  if decide (a = c) then String.leb s r else (N_of_ascii a <? N_of_ascii c)%N.
Proof.
  unfold String.leb; simpl. case_decide as Hac.
  - subst. by rewrite ascii_compare_refl.
  - unfold Ascii.compare.
    destruct (N.compare_spec (N_of_ascii a) (N_of_ascii c)) as [He|Hl|Hg].
    + destruct Hac. by rewrite <- (ascii_N_embedding a), He, ascii_N_embedding.
    + symmetry. by apply N.ltb_lt.
    + symmetry. apply N.ltb_ge. lia.
Qed.

Lemma ltb_empty_r s : String.ltb s EmptyString = false.
Proof. by destruct s. Qed.

Lemma ltb_cons a s c r :
  String.ltb (String a s) (String c r) =
  if decide (a = c) then String.ltb s r else (N_of_ascii a <? N_of_ascii c)%N.
Proof.
  unfold String.ltb; simpl. case_decide as Hac.
  - subst. by rewrite ascii_compare_refl.
  - unfold Ascii.compare.
    destruct (N.compare_spec (N_of_ascii a) (N_of_ascii c)) as [He|Hl|Hg].
    + destruct Hac. by rewrite <- (ascii_N_embedding a), He, ascii_N_embedding.
    + symmetry. by apply N.ltb_lt.
    + symmetry. apply N.ltb_ge. lia.
Qed.

(** The range of a prefix holds exactly the keys that start with it. *)
Lemma in_range_BytesPrefix prefix key :
  leveldb.in_range (leveldb.BytesPrefix prefix) key = HasPrefix key prefix.
Proof.
  unfold leveldb.in_range, leveldb.BytesPrefix; simpl.
  revert key. induction prefix as [|c prefix IH]; intros key.
  - simpl. by rewrite leb_empty_l.
  - destruct key as [|a key]; [done|].
    rewrite leb_cons. simpl. specialize (IH key).
    destruct (leveldb.prefix_limit prefix) as [limit|].
    + rewrite ltb_cons.
      destruct (decide (c = a)) as [->|Hca].
      * by rewrite !decide_True.
      * rewrite (decide_False (P := a = c)); [|congruence].
        rewrite (decide_False (P := a = c)); [|congruence].
        apply andb_false_iff.
        destruct (N.ltb_spec (N_of_ascii c) (N_of_ascii a)); [right|by left].
        apply N.ltb_ge. lia.
    + rewrite andb_true_r in IH.
      destruct (N.ltb_spec (N_of_ascii c) 255) as [Hc|Hc].
      * rewrite ltb_cons, ltb_empty_r, N_of_succ_byte; [|done].
        destruct (decide (c = a)) as [->|Hca].
        -- rewrite (decide_True (P := a = a)); [|done].
           rewrite decide_False.
           2:{ intros Heq. apply (f_equal N_of_ascii) in Heq.
               rewrite N_of_succ_byte in Heq; [lia|done]. }
           rewrite IH.
           replace (N_of_ascii a <? N_of_ascii a + 1)%N with true
             by (symmetry; apply N.ltb_lt; lia).
           apply andb_true_r.
        -- rewrite (decide_False (P := a = c)); [|congruence].
           assert (N_of_ascii c ≠ N_of_ascii a) as Hne.
           { intros Heq. destruct Hca.
             by rewrite <- (ascii_N_embedding c), Heq, ascii_N_embedding. }
           destruct (N.ltb_spec (N_of_ascii c) (N_of_ascii a)); [|done].
           simpl. case_decide as Hs.
           ++ done.
           ++ apply N.ltb_ge. lia.
      * rewrite andb_true_r.
        destruct (decide (c = a)) as [->|Hca].
        -- by rewrite !decide_True.
        -- rewrite (decide_False (P := a = c)); [|congruence].
           apply N.ltb_ge. pose proof (N_ascii_bounded a). lia.
Qed.

End byte_order.

(** ** Go [int] *)
Section int.

Lemma wrap64_small z : - 2 ^ 63 ≤ z < 2 ^ 63 → wrap64 z = z.
Proof. intros Hz. unfold wrap64. rewrite Z.mod_small; lia. Qed.

Lemma wrap64_succ z : wrap64 (wrap64 z + 1) = wrap64 (z + 1).
Proof.
  unfold wrap64. f_equal.
  replace ((z + 2 ^ 63) mod 2 ^ 64 - 2 ^ 63 + 1 + 2 ^ 63)
    with ((z + 2 ^ 63) mod 2 ^ 64 + 1) by lia.
  rewrite Zplus_mod_idemp_l. f_equal. lia.
Qed.

Lemma int_of_nat_small n : Z.of_nat n < 2 ^ 63 → int_of_nat n = Z.of_nat n.
Proof. intros Hn. apply wrap64_small. lia. Qed.

End int.

(** ** Iteration in key order *)
Section iteration.

Lemma sorted_items_Permutation m : sorted_items m ≡ₚ map_to_list m.
Proof. apply merge_sort_Permutation. Qed.

Lemma elem_of_sorted_items m k v : (k, v) ∈ sorted_items m ↔ m !! k = Some v.
Proof. rewrite sorted_items_Permutation. apply elem_of_map_to_list. Qed.

Lemma NoDup_fst_sorted_items m : NoDup (sorted_items m).*1.
Proof. rewrite sorted_items_Permutation. apply NoDup_fst_map_to_list. Qed.

Lemma sorted_items_empty : sorted_items ∅ = [].
Proof.
  apply Permutation_nil_r. rewrite sorted_items_Permutation.
  by rewrite map_to_list_empty.
Qed.

Lemma keys_sorted_items m : list_to_set (sorted_items m).*1 = dom m.
Proof.
  apply set_eq. intros k.
  rewrite elem_of_list_to_set, list_elem_of_fmap, elem_of_dom. split.
  - intros [[k' v] [-> Hin]]. apply elem_of_sorted_items in Hin. by exists v.
  - intros [v Hv]. exists (k, v). split; [done|]. by apply elem_of_sorted_items.
Qed.

End iteration.

(** ** The bbolt adapter *)
Section bbolt_adapter.
Import bbolt BboltBackend.
Context {Model : Type} `{!JSON Model}.
Implicit Types (db : gmap string (gmap string string)) (bucket key : string).

Lemma records_existing db bucket b : db !! bucket = Some b → records db bucket = b.
Proof. unfold records. by intros ->. Qed.

Lemma records_missing db bucket : db !! bucket = None → records db bucket = ∅.
Proof. unfold records. by intros ->. Qed.

Lemma record_Some db bucket key data :
  record db bucket key = Some data ↔
  ∃ b, db !! bucket = Some b ∧ b !! key = Some data.
Proof.
  unfold record, records. destruct (db !! bucket) as [b|]; simpl.
  - split; [by exists b|]. by intros [? [[= <-] ?]].
  - rewrite lookup_empty. split; [done|]. by intros [? [? ?]].
Qed.

(** The store once the bucket is ensured. *)
Lemma ensured_existing db bucket :
  is_Some (db !! bucket) → <[bucket := records db bucket]> db = db.
Proof. intros [b Hb]. apply insert_id. by rewrite (records_existing _ _ b). Qed.

Lemma ensured_missing db bucket :
  db !! bucket = None → <[bucket := records db bucket]> db = <[bucket := ∅]> db.
Proof. intros Hb. by rewrite records_missing. Qed.

Lemma records_ensured db bucket :
  records (<[bucket := records db bucket]> db) bucket = records db bucket.
Proof. unfold records at 1. by rewrite lookup_insert_eq. Qed.

Lemma checkBucket_unnamed db :
  checkBucket EmptyString db = (db, Some bbolt_ErrBucketNameRequired).
Proof. reflexivity. Qed.

Lemma checkBucket_named bucket db :
  bucket ≠ EmptyString →
  checkBucket bucket db = (<[bucket := records db bucket]> db, None).
Proof.
  intros Hb. unfold checkBucket, DB_Update, Tx_CreateBucketIfNotExists.
  rewrite decide_False by done.
  destruct (db !! bucket) as [b|] eqn:Hdb; simpl.
  - by rewrite ensured_existing.
  - by rewrite ensured_missing.
Qed.

Lemma view_unnamed key db :
  view EmptyString key db = (db, (None, Some bbolt_ErrBucketNameRequired)).
Proof. reflexivity. Qed.

Lemma view_named bucket key db :
  bucket ≠ EmptyString →
  view bucket key db =
    (<[bucket := records db bucket]> db,
     match record db bucket key with
     | Some data => (Some data, None)
     | None => (None, Some (errors_New "key does not exist"))
     end).
Proof.
  intros Hb. unfold view. rewrite checkBucket_named by done.
  unfold DB_View, Tx_Bucket, Bucket_Get, record.
  rewrite lookup_insert_eq. by destruct (records db bucket !! key).
Qed.

Lemma Bucket_Put_storable tx name b key value :
  storable key value →
  Bucket_Put tx name b key value = (<[name := <[key := value]> b]> tx, None).
Proof.
  intros (Hk & Hlen & Hval). unfold Bucket_Put.
  rewrite decide_False by done.
  destruct (Z.gtb_spec (Z.of_nat (String.length key)) MaxKeySize); [lia|].
  destruct (Z.gtb_spec (Z.of_nat (String.length value)) MaxValueSize); [lia|].
  done.
Qed.

Lemma Bucket_Put_inv tx name b key value tx' :
  Bucket_Put tx name b key value = (tx', None) →
  storable key value ∧ tx' = <[name := <[key := value]> b]> tx.
Proof.
  unfold Bucket_Put, storable. case_decide; [done|].
  destruct (Z.gtb_spec (Z.of_nat (String.length key)) MaxKeySize); [done|].
  destruct (Z.gtb_spec (Z.of_nat (String.length value)) MaxValueSize); [done|].
  intros [= <-]. repeat split; done || lia.
Qed.

Lemma write_unserializable bucket key model db e :
  json_Marshal model = inl e → write bucket key model db = (db, Some e).
Proof. intros He. unfold write. by rewrite He. Qed.

Lemma write_unnamed key model db :
  ∃ e, write EmptyString key model db = (db, Some e).
Proof. unfold write. destruct (json_Marshal model); eauto. Qed.

Lemma write_storable bucket key model data db :
  bucket ≠ EmptyString → json_Marshal model = inr data → storable key data →
  write bucket key model db =
    (<[bucket := <[key := data]> (records db bucket)]> db, None).
Proof.
  intros Hb Hm Hs. unfold write. rewrite Hm, checkBucket_named by done.
  unfold DB_Update, Tx_Bucket. rewrite lookup_insert_eq.
  rewrite Bucket_Put_storable by done. by rewrite insert_insert_eq.
Qed.

Lemma write_inv bucket key model db db' :
  write bucket key model db = (db', None) →
  ∃ data, bucket ≠ EmptyString ∧ json_Marshal model = inr data ∧
          storable key data ∧
          db' = <[bucket := <[key := data]> (records db bucket)]> db.
Proof.
  unfold write. destruct (json_Marshal model) as [e|data]; [done|].
  destruct (decide (bucket = EmptyString)) as [->|Hb]; [done|].
  rewrite checkBucket_named by done.
  unfold DB_Update, Tx_Bucket. rewrite lookup_insert_eq.
  destruct (Bucket_Put _ _ _ _ _) as [tx [e|]] eqn:Hput; [done|].
  intros [= <-]. apply Bucket_Put_inv in Hput as [Hs ->].
  exists data. by rewrite insert_insert_eq.
Qed.

(** A failed [write] leaves at most the ensured bucket behind. *)
Lemma write_error bucket key model db db' e :
  write bucket key model db = (db', Some e) →
  db' = db ∨ (bucket ≠ EmptyString ∧ db' = <[bucket := records db bucket]> db).
Proof.
  unfold write. destruct (json_Marshal model) as [e'|data]; [left; congruence|].
  destruct (decide (bucket = EmptyString)) as [->|Hb].
  { rewrite checkBucket_unnamed. left; congruence. }
  rewrite checkBucket_named by done.
  unfold DB_Update, Tx_Bucket. rewrite lookup_insert_eq.
  destruct (Bucket_Put _ _ _ _ _) as [tx [e'|]] eqn:Hput; [|done].
  intros [= <- <-]. by right.
Qed.

Lemma Create_unnamed key model db :
  ∃ e, Create EmptyString key model db = (db, Some e).
Proof.
  unfold Create. rewrite view_unnamed.
  destruct (write_unnamed key model db) as [e ->]. by exists e.
Qed.

Lemma Create_existing bucket key model db data :
  bucket ≠ EmptyString → record db bucket key = Some data →
  Create bucket key model db = (db, Some (errors_New "key already exists")).
Proof.
  intros Hb Hr. unfold Create. rewrite view_named, Hr by done.
  rewrite ensured_existing; [done|].
  apply record_Some in Hr as (b & -> & _). by eexists.
Qed.

Lemma Create_fresh bucket key model data db :
  bucket ≠ EmptyString → record db bucket key = None →
  json_Marshal model = inr data → storable key data →
  Create bucket key model db =
    (<[bucket := <[key := data]> (records db bucket)]> db, None).
Proof.
  intros Hb Hr Hm Hs. unfold Create. rewrite view_named, Hr by done.
  rewrite (write_storable _ _ _ data) by done.
  by rewrite records_ensured, insert_insert_eq.
Qed.

Lemma Create_inv bucket key model db db' :
  Create bucket key model db = (db', None) →
  ∃ data, bucket ≠ EmptyString ∧ record db bucket key = None ∧
          json_Marshal model = inr data ∧ storable key data ∧
          db' = <[bucket := <[key := data]> (records db bucket)]> db.
Proof.
  destruct (decide (bucket = EmptyString)) as [->|Hb].
  { destruct (Create_unnamed key model db) as [e ->]. done. }
  unfold Create. rewrite view_named by done.
  destruct (record db bucket key) as [old|] eqn:Hr; [done|].
  intros (data & _ & Hm & Hs & ->)%write_inv. exists data.
  by rewrite records_ensured, insert_insert_eq.
Qed.

Lemma Read_named bucket key model db :
  bucket ≠ EmptyString →
  Read bucket key model db =
    (<[bucket := records db bucket]> db,
     match record db bucket key with
     | Some data => json_Unmarshal data model
     | None => (model, Some (errors_New "key does not exist"))
     end).
Proof.
  intros Hb. unfold Read. rewrite view_named by done.
  by destruct (record db bucket key).
Qed.

Lemma Update_missing bucket key model db :
  bucket ≠ EmptyString → record db bucket key = None →
  Update bucket key model db =
    (<[bucket := records db bucket]> db,
     Some (errors_New "key does not exist")).
Proof. intros Hb Hr. unfold Update. by rewrite view_named, Hr. Qed.

Lemma Update_unserializable bucket key model db data e :
  bucket ≠ EmptyString → record db bucket key = Some data →
  json_Marshal model = inl e →
  Update bucket key model db = (db, Some e).
Proof.
  intros Hb Hr He. unfold Update. rewrite view_named, Hr by done.
  rewrite ensured_existing; [by apply write_unserializable|].
  apply record_Some in Hr as (b & -> & _). by eexists.
Qed.

Lemma Delete_missing bucket key db :
  bucket ≠ EmptyString → record db bucket key = None →
  Delete bucket key db =
    (<[bucket := records db bucket]> db,
     Some (errors_New "key does not exist")).
Proof. intros Hb Hr. unfold Delete. by rewrite view_named, Hr. Qed.

Lemma Delete_existing bucket key db data :
  bucket ≠ EmptyString → record db bucket key = Some data →
  Delete bucket key db = (<[bucket := delete key (records db bucket)]> db, None).
Proof.
  intros Hb Hr. unfold Delete. rewrite view_named, Hr by done.
  unfold DB_Update, Tx_Bucket, Bucket_Delete. rewrite lookup_insert_eq.
  by rewrite insert_insert_eq.
Qed.

Lemma Count_named bucket db :
  bucket ≠ EmptyString →
  Count bucket db =
    (<[bucket := records db bucket]> db,
     (int_of_nat (size (records db bucket)), None)).
Proof.
  intros Hb. unfold Count. rewrite checkBucket_named by done.
  unfold DB_View, Tx_Bucket. by rewrite lookup_insert_eq.
Qed.

Lemma Drop_missing bucket db :
  db !! bucket = None →
  ∃ e, Drop bucket db = (db, Some e) ∧
       (bucket ≠ EmptyString → e = bbolt_ErrBucketNotFound).
Proof.
  intros Hb. unfold Drop, DB_Update, Tx_DeleteBucket. rewrite Hb.
  destruct (decide (bucket = EmptyString ∧ db = ∅)) as [[Hname _]|_].
  - by exists bbolt_ErrIncompatibleValue.
  - by exists bbolt_ErrBucketNotFound.
Qed.

Lemma Drop_existing bucket db :
  is_Some (db !! bucket) → Drop bucket db = (delete bucket db, None).
Proof.
  intros [b Hb]. unfold Drop, DB_Update, Tx_DeleteBucket. by rewrite Hb.
Qed.

(** The closure of [Get] adds the key of every pair it decodes. *)
Lemma for_each_Get_step items model results model' results' :
  for_each Get_step items (model, results) = ((model', results'), None) →
  dom results' = dom results ∪ list_to_set items.*1.
Proof.
  revert model results.
  induction items as [|[key value] items IH]; intros model results; simpl.
  - intros [= _ <-]. by rewrite (right_id_L ∅ (∪)).
  - destruct (json_Unmarshal value model) as [model1 [e|]]; [done|].
    intros ->%IH. rewrite dom_insert_L. cbn [fmap list_fmap list_to_set fst].
    by rewrite (assoc_L (∪)), (comm_L (∪) _ (dom results)).
Qed.

Lemma Get_named bucket model db :
  bucket ≠ EmptyString →
  Get bucket model db =
    (<[bucket := records db bucket]> db,
     let '((_, results), err) :=
       Bucket_ForEach (records db bucket) Get_step (model, ∅) in
     (Some results, err)).
Proof.
  intros Hb. unfold Get. rewrite checkBucket_named by done.
  unfold DB_View, Tx_Bucket. rewrite lookup_insert_eq.
  by destruct (Bucket_ForEach _ _ _) as [[? ?] ?].
Qed.

(** When [Get] succeeds its mapping has the keys of the bucket. *)
Lemma Get_keys bucket model db db' results :
  Get bucket model db = (db', (Some results, None)) →
  bucket ≠ EmptyString ∧ db' = <[bucket := records db bucket]> db ∧
  dom results = dom (records db bucket).
Proof.
  destruct (decide (bucket = EmptyString)) as [->|Hb]; [done|].
  rewrite Get_named by done. unfold Bucket_ForEach.
  destruct (for_each _ _ _) as [[model' results'] err] eqn:Hfe.
  intros [= <- <- ->]. apply for_each_Get_step in Hfe.
  rewrite Hfe, keys_sorted_items, dom_empty_L. split; [done|].
  split; [done|]. apply (left_id_L ∅ (∪)).
Qed.

(** No bucket has the empty name. *)
Lemma reachable_named db : reachable db → db !! EmptyString = None.
Proof.
  assert (∀ bucket db (b : gmap string string),
    db !! EmptyString = None → bucket ≠ EmptyString →
    <[bucket := b]> db !! EmptyString = None) as Hins.
  { intros. by rewrite lookup_insert_ne. }
  induction 1 as [|bucket db _ IH|bucket key model db _ IH|bucket key db _ IH
                  |bucket db _ IH|bucket model db _ IH|bucket key model db _ IH
                  |bucket key model db _ IH].
  - apply lookup_empty.
  - destruct (decide (bucket = EmptyString)) as [->|Hb]; [done|].
    rewrite Count_named by done. by apply Hins.
  - destruct (Create bucket key model db) as [db' [e|]] eqn:Hc.
    + destruct (decide (bucket = EmptyString)) as [->|Hb].
      { destruct (Create_unnamed key model db) as [e' He].
        rewrite He in Hc. by simplify_eq. }
      revert Hc. unfold Create. rewrite view_named by done.
      destruct (record db bucket key).
      * intros [= <- _]. by apply Hins.
      * intros [->|[_ ->]]%write_error; simpl; by repeat apply Hins.
    + apply Create_inv in Hc as (data & Hb & _ & _ & _ & ->). by apply Hins.
  - destruct (decide (bucket = EmptyString)) as [->|Hb]; [done|].
    destruct (record db bucket key) as [data|] eqn:Hr.
    + rewrite (Delete_existing _ _ _ data) by done. by apply Hins.
    + rewrite Delete_missing by done. by apply Hins.
  - destruct (db !! bucket) as [b|] eqn:Hb.
    + rewrite Drop_existing by eauto. simpl.
      destruct (decide (bucket = EmptyString)) as [->|Hne].
      * apply lookup_delete_eq.
      * by rewrite lookup_delete_ne.
    + by destruct (Drop_missing bucket db Hb) as (e & -> & _).
  - destruct (decide (bucket = EmptyString)) as [->|Hb]; [done|].
    rewrite Get_named by done.
    destruct (Bucket_ForEach _ _ _) as [[? ?] ?]. by apply Hins.
  - destruct (decide (bucket = EmptyString)) as [->|Hb]; [done|].
    rewrite Read_named by done. by apply Hins.
  - destruct (decide (bucket = EmptyString)) as [->|Hb]; [done|].
    unfold Update. rewrite view_named by done.
    destruct (record db bucket key); [|by apply Hins].
    destruct (write _ _ _ _) as [db' [e|]] eqn:Hw.
    + apply write_error in Hw as [->|[_ ->]]; simpl; by repeat apply Hins.
    + apply write_inv in Hw as (data & _ & _ & _ & ->). by repeat apply Hins.
Qed.

(** A bucket that holds a record has a name. *)
Lemma reachable_record_named db bucket key data :
  reachable db → record db bucket key = Some data → bucket ≠ EmptyString.
Proof.
  intros Hdb%reachable_named (b & Hb & _)%record_Some ->. congruence.
Qed.

End bbolt_adapter.

(** ** The goleveldb adapter *)
Section level_adapter.
Import leveldb LevelBackend.
Context {Model : Type} `{!JSON Model}.
Implicit Types (db : gmap string string) (bucket key : string).

(** A prefix scan yields the stored pairs whose key starts with the prefix. *)
Lemma elem_of_NewIterator db prefix k v :
  (k, v) ∈ NewIterator db (BytesPrefix prefix) ↔
  db !! k = Some v ∧ HasPrefix k prefix = true.
Proof.
  unfold NewIterator.
  rewrite list_elem_of_filter, elem_of_sorted_items, in_range_BytesPrefix.
  simpl. tauto.
Qed.

Lemma NoDup_fst_NewIterator db slice : NoDup (NewIterator db slice).*1.
Proof.
  apply (sublist_NoDup _ (sorted_items db).*1).
  - apply NoDup_fst_sorted_items.
  - apply fmap_sublist, sublist_filter.
Qed.

Lemma NewIterator_nil db prefix :
  (∀ k, HasPrefix k prefix = true → db !! k = None) →
  NewIterator db (BytesPrefix prefix) = [].
Proof.
  intros Hnone.
  destruct (NewIterator db (BytesPrefix prefix)) as [|[k v] iter] eqn:Hit; [done|].
  assert ((k, v) ∈ NewIterator db (BytesPrefix prefix)) as Hin.
  { rewrite Hit. apply list_elem_of_here. }
  apply elem_of_NewIterator in Hin as [Hk Hp]. rewrite Hnone in Hk; done.
Qed.


Lemma record_None_bucket db bucket :
  (∀ key, record db bucket key = None) ↔
  (∀ k, HasPrefix k (bucket +:+ "_") = true → db !! k = None).
Proof.
  unfold record. split.
  - intros Hnone k [key ->]%HasPrefix_inv. apply Hnone.
  - intros Hnone key. apply Hnone, HasPrefix_app.
Qed.

Lemma NewIterator_no_record db bucket :
  (∀ key, record db bucket key = None) →
  NewIterator db (BytesPrefix (bucket +:+ "_")) = [].
Proof.
  intros Hnone. apply NewIterator_nil. by apply record_None_bucket.
Qed.

Lemma Count_loop_length iter z :
  Count_loop iter (wrap64 z) = wrap64 (z + Z.of_nat (length iter)).
Proof.
  revert z. induction iter as [|kv iter IH]; intros z.
  - simpl. f_equal. lia.
  - cbn [Count_loop length]. rewrite wrap64_succ, IH. f_equal. lia.
Qed.

Lemma Count_scan bucket db :
  Count bucket db =
    (db, (int_of_nat (length (NewIterator db (BytesPrefix (bucket +:+ "_")))),
          None)).
Proof.
  unfold Count, Iterator_Error. change 0 with (wrap64 0) at 1.
  by rewrite Count_loop_length.
Qed.

Lemma Create_existing_level bucket key model db data :
  record db bucket key = Some data →
  Create bucket key model db = (db, Some (errors_New "key already exists")).
Proof. unfold record, Create, DB_Get. by intros ->. Qed.

Lemma Create_fresh_level bucket key model data db :
  record db bucket key = None → json_Marshal model = inr data →
  Create bucket key model db = (<[(bucket +:+ "_") +:+ key := data]> db, None).
Proof. unfold record, Create, DB_Get, DB_Put. by intros -> ->. Qed.

Lemma Create_inv_level bucket key model db db' :
  Create bucket key model db = (db', None) →
  ∃ data, record db bucket key = None ∧ json_Marshal model = inr data ∧
          db' = <[(bucket +:+ "_") +:+ key := data]> db.
Proof.
  unfold record, Create, DB_Get, DB_Put.
  destruct (db !! _) as [old|]; [done|].
  destruct (json_Marshal model) as [e|data]; [done|].
  intros [= <-]. by exists data.
Qed.

Lemma Read_level bucket key model db :
  Read bucket key model db =
    (db, match record db bucket key with
         | Some data => json_Unmarshal data model
         | None => (model, Some leveldb_ErrNotFound)
         end).
Proof. unfold record, Read, DB_Get. by destruct (db !! _). Qed.

Lemma Update_missing_level bucket key model db :
  record db bucket key = None →
  Update bucket key model db = (db, Some leveldb_ErrNotFound).
Proof. unfold record, Update, DB_Get. by intros ->. Qed.

Lemma Update_unserializable_level bucket key model db data e :
  record db bucket key = Some data → json_Marshal model = inl e →
  Update bucket key model db = (db, Some e).
Proof. unfold record, Update, DB_Get. by intros -> ->. Qed.

Lemma Delete_missing_level bucket key db :
  record db bucket key = None →
  Delete bucket key db = (db, Some leveldb_ErrNotFound).
Proof. unfold record, Delete, DB_Get. by intros ->. Qed.

Lemma Delete_existing_level bucket key db data :
  record db bucket key = Some data →
  Delete bucket key db = (delete ((bucket +:+ "_") +:+ key) db, None).
Proof. unfold record, Delete, DB_Get, DB_Delete. by intros ->. Qed.

(** The loop of [Drop] deletes the keys of the scan and no other. *)
Lemma Drop_loop_lookup iter db :
  ∃ db', Drop_loop iter db = (db', None) ∧
         ∀ k, db' !! k = if decide (k ∈ iter.*1) then None else db !! k.
Proof.
  revert db. induction iter as [|[key value] iter IH]; intros db.
  - exists db. split; [done|]. intros k. rewrite decide_False; [done|].
    apply not_elem_of_nil.
  - cbn [Drop_loop DB_Delete]. destruct (IH (delete key db)) as (db' & -> & Hdb').
    exists db'. split; [done|]. intros k. rewrite Hdb'. cbn [fmap list_fmap fst].
    destruct (decide (k = key)) as [->|Hne].
    + rewrite lookup_delete_eq, (decide_True (P := key ∈ key :: _)).
      * by destruct (decide _).
      * apply list_elem_of_here.
    + rewrite lookup_delete_ne by done.
      apply decide_ext. rewrite elem_of_cons. tauto.
Qed.

Lemma Drop_lookup bucket db :
  ∃ db', Drop bucket db = (db', None) ∧
         ∀ k, db' !! k =
              if HasPrefix k (bucket +:+ "_") then None else db !! k.
Proof.
  unfold Drop, Iterator_Error.
  destruct (Drop_loop_lookup
              (NewIterator db (BytesPrefix (bucket +:+ "_"))) db)
    as (db' & -> & Hdb').
  exists db'. split; [done|]. intros k. rewrite Hdb'.
  destruct (HasPrefix k (bucket +:+ "_")) eqn:Hp.
  - destruct (db !! k) as [v|] eqn:Hk; [|by destruct (decide _)].
    rewrite decide_True; [done|].
    apply list_elem_of_fmap. exists (k, v). split; [done|].
    by apply elem_of_NewIterator.
  - rewrite decide_False; [done|].
    intros [[k' v] [-> Hin]]%list_elem_of_fmap.
    apply elem_of_NewIterator in Hin as [_ Hp']. simpl in Hp. congruence.
Qed.

(** The loop of [Get] adds the trimmed key of every pair it decodes. *)
Lemma Get_loop_dom bucket iter model results results' :
  Get_loop bucket iter model results = inr results' →
  dom results' =
    dom results ∪
    list_to_set ((λ kv, TrimPrefix kv.1 (bucket +:+ "_")) <$> iter).
Proof.
  revert model results.
  induction iter as [|[k value] iter IH]; intros model results.
  - intros [= <-]. simpl. by rewrite (right_id_L ∅ (∪)).
  - cbn [Get_loop]. destruct (json_Unmarshal value model) as [model1 [e|]]; [done|].
    intros ->%IH. rewrite dom_insert_L. cbn [fmap list_fmap list_to_set fst].
    by rewrite (assoc_L (∪)), (comm_L (∪) _ (dom results)).
Qed.

Lemma Get_inv_level bucket model db db' results :
  Get bucket model db = (db', (Some results, None)) →
  db' = db ∧
  dom results =
    list_to_set ((λ kv, TrimPrefix kv.1 (bucket +:+ "_")) <$>
                 NewIterator db (BytesPrefix (bucket +:+ "_"))).
Proof.
  unfold Get, Iterator_Error.
  destruct (Get_loop _ _ _ _) as [e|results1] eqn:Hloop; [done|].
  intros [= <- <-]. split; [done|].
  apply Get_loop_dom in Hloop. by rewrite Hloop, dom_empty_L, (left_id_L ∅ (∪)).
Qed.

(** The trimmed keys of a scan are pairwise distinct. *)
Lemma NoDup_trimmed bucket db :
  NoDup ((λ kv, TrimPrefix kv.1 (bucket +:+ "_")) <$>
         NewIterator db (BytesPrefix (bucket +:+ "_"))).
Proof.
  apply NoDup_fmap_2_strong.
  - intros [k1 v1] [k2 v2] [Hk1 Hp1]%elem_of_NewIterator
      [Hk2 Hp2]%elem_of_NewIterator Htrim. simpl in Htrim.
    apply TrimPrefix_inj in Htrim; [|done..]. subst k2. congruence.
  - eapply NoDup_fmap_1, NoDup_fst_NewIterator.
Qed.


Lemma Get_size_level bucket model db db' results :
  Get bucket model db = (db', (Some results, None)) →
  size results = length (NewIterator db (BytesPrefix (bucket +:+ "_"))).
Proof.
  intros [_ Hdom]%Get_inv_level.
  rewrite <- size_dom, Hdom, size_list_to_set by apply NoDup_trimmed.
  apply length_fmap.
Qed.

End level_adapter.

(** * The contract *)
Section contract.
Context {Model : Type} `{!JSON Model}.

Lemma records_insert (db : gmap string (gmap string string)) bucket b :
  BboltBackend.records (<[bucket := b]> db) bucket = b.
Proof. unfold BboltBackend.records. by rewrite lookup_insert_eq. Qed.

Lemma record_insert (db : gmap string (gmap string string)) bucket b key :
  BboltBackend.record (<[bucket := b]> db) bucket key = b !! key.
Proof. unfold BboltBackend.record. by rewrite records_insert. Qed.

(** C1, amended: on either adapter, whenever Create(bucket, key, value)
    of a serializable value returns nil, Read(bucket, key, out) on the
    store it leaves returns what decoding the encoding of value into out
    returns (the value after the JSON round trip, and no error when that
    decoding has none), and leaves the store as it is.  Create returns nil,
    with that Read after it, whenever (bucket, key) holds no record; on the
    bbolt adapter also the bucket name must not be empty and bbolt's Put
    must take the key and the encoding. *)
Theorem create_then_read (bucket key : string) (value out : Model) (data : string) :
  json_Marshal value = inr data →
  (∀ db db', BboltBackend.Create bucket key value db = (db', None) →
     BboltBackend.Read bucket key out db' = (db', json_Unmarshal data out)) ∧
  (∀ db, bucket ≠ EmptyString → bbolt.storable key data →
     BboltBackend.record db bucket key = None →
     ∃ db', BboltBackend.Create bucket key value db = (db', None) ∧
            BboltBackend.Read bucket key out db' =
              (db', json_Unmarshal data out)) ∧
  (∀ db db', LevelBackend.Create bucket key value db = (db', None) →
     LevelBackend.Read bucket key out db' = (db', json_Unmarshal data out)) ∧
  (∀ db, LevelBackend.record db bucket key = None →
     ∃ db', LevelBackend.Create bucket key value db = (db', None) ∧
            LevelBackend.Read bucket key out db' =
              (db', json_Unmarshal data out)).
Proof.
  intros Hm.
  assert (∀ db db', BboltBackend.Create bucket key value db = (db', None) →
            BboltBackend.Read bucket key out db' =
              (db', json_Unmarshal data out)) as Hbbolt.
  { intros db db' (data' & Hb & _ & Hm' & _ & ->)%Create_inv.
    assert (data' = data) as -> by congruence.
    rewrite Read_named by done.
    rewrite records_insert, record_insert, insert_insert_eq.
    by rewrite lookup_insert_eq. }
  assert (∀ db db', LevelBackend.Create bucket key value db = (db', None) →
            LevelBackend.Read bucket key out db' =
              (db', json_Unmarshal data out)) as Hlevel.
  { intros db db' (data' & _ & Hm' & ->)%Create_inv_level.
    assert (data' = data) as -> by congruence.
    rewrite Read_level. unfold LevelBackend.record.
    by rewrite lookup_insert_eq. }
  split; [done|]. split; [|split; [done|]].
  - intros db Hb Hs Hr. eexists. split; [by apply Create_fresh|].
    apply (Hbbolt db). by apply Create_fresh.
  - intros db Hr. eexists. split; [by apply Create_fresh_level|].
    apply (Hlevel db). by apply Create_fresh_level.
Qed.

(** C2: on either adapter, Create on a (bucket, key) that holds a record
    returns the error [key already exists], of kind AlreadyExists, and the
    store after the call is the store before it.  For bbolt the store is
    any store the adapter can produce from a new file; for goleveldb it is
    any store. *)
Theorem create_existing_fails (bucket key : string) (value : Model) (data : string) :
  (∀ db, BboltBackend.reachable db →
     BboltBackend.record db bucket key = Some data →
     BboltBackend.Create bucket key value db =
       (db, Some (errors_New "key already exists"))) ∧
  (∀ db, LevelBackend.record db bucket key = Some data →
     LevelBackend.Create bucket key value db =
       (db, Some (errors_New "key already exists"))) ∧
  kind (errors_New "key already exists") = AlreadyExists.
Proof.
  repeat split.
  - intros db Hdb Hr. apply (Create_existing _ _ _ _ data); [|done].
    by apply (reachable_record_named db bucket key data).
  - intros db Hr. by apply (Create_existing_level _ _ _ _ data).
Qed.

(** C3, amended: for every (bucket, key) that holds no record, Read, Update
    and Delete return leveldb's ErrNotFound on the goleveldb adapter, and
    on the bbolt adapter, when the bucket name is not empty, the error
    [key does not exist]; both are of kind NotFound.  After a Delete that
    succeeded, (bucket, key) holds no record. *)
Theorem absent_record_not_found (bucket key : string) (value out : Model) :
  (∀ db, bucket ≠ EmptyString → BboltBackend.record db bucket key = None →
     (BboltBackend.Read bucket key out db).2 =
       (out, Some (errors_New "key does not exist")) ∧
     (BboltBackend.Update bucket key value db).2 =
       Some (errors_New "key does not exist") ∧
     (BboltBackend.Delete bucket key db).2 =
       Some (errors_New "key does not exist")) ∧
  (∀ db db', BboltBackend.Delete bucket key db = (db', None) →
     bucket ≠ EmptyString ∧ BboltBackend.record db' bucket key = None) ∧
  (∀ db, LevelBackend.record db bucket key = None →
     LevelBackend.Read bucket key out db = (db, (out, Some leveldb_ErrNotFound)) ∧
     LevelBackend.Update bucket key value db = (db, Some leveldb_ErrNotFound) ∧
     LevelBackend.Delete bucket key db = (db, Some leveldb_ErrNotFound)) ∧
  (∀ db db', LevelBackend.Delete bucket key db = (db', None) →
     LevelBackend.record db' bucket key = None) ∧
  kind (errors_New "key does not exist") = NotFound ∧
  kind leveldb_ErrNotFound = NotFound.
Proof.
  split; [|split; [|split; [|split; [|done]]]].
  - intros db Hb Hr.
    rewrite Read_named, Update_missing, Delete_missing by done.
    by rewrite Hr.
  - intros db db'. destruct (decide (bucket = EmptyString)) as [->|Hb]; [done|].
    destruct (BboltBackend.record db bucket key) as [data|] eqn:Hr.
    + rewrite (Delete_existing _ _ _ data) by done. intros [= <-].
      split; [done|]. rewrite record_insert. apply lookup_delete_eq.
    + by rewrite Delete_missing.
  - intros db Hr.
    rewrite Read_level, Update_missing_level, Delete_missing_level by done.
    by rewrite Hr.
  - intros db db'.
    destruct (LevelBackend.record db bucket key) as [data|] eqn:Hr.
    + rewrite (Delete_existing_level _ _ _ data) by done. intros [= <-].
      apply lookup_delete_eq.
    + by rewrite Delete_missing_level.
Qed.

(** C4: on either adapter, when Get(bucket, ...) returns a mapping, Count
    on the same store returns the number of keys of that mapping, as the Go
    [int] that [len] gives, and leaves the store as Get leaves it; for a
    bucket without records Get returns the empty mapping and Count 0.  A
    number below 2^63 is its own [int]. *)
Theorem count_matches_get (bucket : string) (model : Model) :
  (∀ db db' results,
     BboltBackend.Get bucket model db = (db', (Some results, None)) →
     BboltBackend.Count bucket db = (db', (int_of_nat (size results), None))) ∧
  (∀ db db' results,
     LevelBackend.Get bucket model db = (db', (Some results, None)) →
     LevelBackend.Count bucket db = (db', (int_of_nat (size results), None))) ∧
  (∀ db, bucket ≠ EmptyString → BboltBackend.records db bucket = ∅ →
     ∃ db', BboltBackend.Get bucket model db = (db', (Some ∅, None)) ∧
            BboltBackend.Count bucket db = (db', (0, None))) ∧
  (∀ db, (∀ key, LevelBackend.record db bucket key = None) →
     LevelBackend.Get bucket model db = (db, (Some ∅, None)) ∧
     LevelBackend.Count bucket db = (db, (0, None))) ∧
  (∀ n : nat, Z.of_nat n < 2 ^ 63 → int_of_nat n = Z.of_nat n).
Proof.
  split; [|split; [|split; [|split]]].
  - intros db db' results (Hb & -> & Hdom)%Get_keys.
    rewrite Count_named by done.
    by rewrite <- (size_dom results), Hdom, size_dom.
  - intros db db' results Hget.
    rewrite Count_scan, (Get_size_level _ _ _ _ _ Hget).
    by apply Get_inv_level in Hget as [-> _].
  - intros db Hb Hempty. eexists.
    rewrite Get_named, Count_named by done. rewrite Hempty.
    unfold bbolt.Bucket_ForEach. by rewrite sorted_items_empty.
  - intros db Hnone.
    rewrite Count_scan. unfold LevelBackend.Get.
    by rewrite NewIterator_no_record.
  - apply int_of_nat_small.
Qed.

(** C5: on the goleveldb adapter, bucket [a] with key [b_c] and bucket
    [a_b] with key [c] have one physical key, so they hold the same record
    in every store; after Create(a, b_c, X) succeeded, Create(a_b, c, Y)
    returns [key already exists] and changes nothing, and Read(a_b, c)
    decodes the encoding of X. *)
Theorem underscore_collision (X Y out : Model) (db db' : gmap string string) :
  LevelBackend.Create "a" "b_c" X db = (db', None) →
  ("a" +:+ "_") +:+ "b_c" = ("a_b" +:+ "_") +:+ "c" ∧
  (∀ db0, LevelBackend.record db0 "a" "b_c" = LevelBackend.record db0 "a_b" "c") ∧
  LevelBackend.Create "a_b" "c" Y db' =
    (db', Some (errors_New "key already exists")) ∧
  ∃ data, json_Marshal X = inr data ∧
          LevelBackend.Read "a_b" "c" out db' = (db', json_Unmarshal data out).
Proof.
  intros (data & _ & Hm & ->)%Create_inv_level.
  assert (LevelBackend.record (<[("a" +:+ "_") +:+ "b_c" := data]> db) "a_b" "c"
          = Some data) as Hr by apply lookup_insert_eq.
  split; [done|]. split; [done|]. split.
  - by apply (Create_existing_level _ _ _ _ data).
  - exists data. split; [done|]. by rewrite Read_level, Hr.
Qed.

(** C6, amended: on the bbolt adapter, a Read, Update, Delete or Count call
    on a bucket that does not exist and whose name is not empty leaves the
    store with that bucket added, empty, and nothing else changed; Read,
    Update and Delete return [key does not exist] and Count returns 0. *)
Theorem missing_bucket_is_created (bucket key : string) (value out : Model)
    (db : gmap string (gmap string string)) :
  bucket ≠ EmptyString → db !! bucket = None →
  BboltBackend.Read bucket key out db =
    (<[bucket := ∅]> db, (out, Some (errors_New "key does not exist"))) ∧
  BboltBackend.Update bucket key value db =
    (<[bucket := ∅]> db, Some (errors_New "key does not exist")) ∧
  BboltBackend.Delete bucket key db =
    (<[bucket := ∅]> db, Some (errors_New "key does not exist")) ∧
  BboltBackend.Count bucket db = (<[bucket := ∅]> db, (0, None)).
Proof.
  intros Hb Hdb.
  assert (BboltBackend.record db bucket key = None) as Hr.
  { unfold BboltBackend.record. by rewrite records_missing. }
  rewrite Read_named, Update_missing, Delete_missing, Count_named by done.
  by rewrite Hr, records_missing.
Qed.

(** C7: Drop of a bucket that does not exist returns no error on the
    goleveldb adapter and an error on the bbolt adapter (ErrBucketNotFound
    when the bucket has a name); on both the store after the call is the
    store before it. *)
Theorem drop_missing_bucket (bucket : string) :
  (∀ db, (∀ key, LevelBackend.record db bucket key = None) →
     LevelBackend.Drop bucket db = (db, None)) ∧
  (∀ db, db !! bucket = None →
     ∃ e, BboltBackend.Drop bucket db = (db, Some e) ∧
          (bucket ≠ EmptyString → e = bbolt_ErrBucketNotFound)).
Proof.
  split.
  - intros db Hnone. unfold LevelBackend.Drop.
    by rewrite NewIterator_no_record.
  - intros db. apply Drop_missing.
Qed.

(** C8: for a bucket with a non-empty name that does not exist, Count
    returns 0 and no error on either adapter. *)
Theorem count_missing_bucket (bucket : string) :
  bucket ≠ EmptyString →
  (∀ db, db !! bucket = None →
     BboltBackend.Count bucket db = (<[bucket := ∅]> db, (0, None))) ∧
  (∀ db, (∀ key, LevelBackend.record db bucket key = None) →
     LevelBackend.Count bucket db = (db, (0, None))).
Proof.
  intros Hb. split.
  - intros db Hdb. rewrite Count_named by done. by rewrite records_missing.
  - intros db Hnone. rewrite Count_scan.
    by rewrite NewIterator_no_record.
Qed.

(** C9: on either adapter, Update of an existing record with a value that
    cannot be serialized returns the error of the serialization, and the
    store after the call is the store before it, so the record keeps its
    value.  For bbolt the store is any store the adapter can produce from a
    new file; for goleveldb it is any store. *)
Theorem failed_update_keeps_value (bucket key : string) (value : Model)
    (data : string) (e : error) :
  json_Marshal value = inl e →
  (∀ db, BboltBackend.reachable db →
     BboltBackend.record db bucket key = Some data →
     BboltBackend.Update bucket key value db = (db, Some e)) ∧
  (∀ db, LevelBackend.record db bucket key = Some data →
     LevelBackend.Update bucket key value db = (db, Some e)).
Proof.
  intros He. split.
  - intros db Hdb Hr. apply (Update_unserializable _ _ _ _ data); [|done..].
    by apply (reachable_record_named db bucket key data).
  - intros db Hr. by apply (Update_unserializable_level _ _ _ _ data).
Qed.

End contract.

(** * The contract on the sample values *)
Section samples.
Import Sample.

Lemma reachable_users_bbolt : BboltBackend.reachable users_bbolt.
Proof. do 2 apply BboltBackend.reachable_Create. apply BboltBackend.reachable_new. Qed.

Lemma create_then_read_witness :
  json_Marshal (VBool true) = inr "true" ∧
  BboltBackend.Read "users" "u3" (VBool false)
    (BboltBackend.Create "users" "u3" (VBool true) users_bbolt).1 =
    ((BboltBackend.Create "users" "u3" (VBool true) users_bbolt).1,
     (VBool true, None)) ∧
  (∃ db', BboltBackend.Create "users" "u3" (VBool true) users_bbolt = (db', None) ∧
          BboltBackend.Read "users" "u3" (VBool false) db' =
            (db', (VBool true, None))) ∧
  LevelBackend.Read "users" "u3" (VBool false)
    (LevelBackend.Create "users" "u3" (VBool true) users_level).1 =
    ((LevelBackend.Create "users" "u3" (VBool true) users_level).1,
     (VBool true, None)) ∧
  (∃ db', LevelBackend.Create "users" "u3" (VBool true) users_level = (db', None) ∧
          LevelBackend.Read "users" "u3" (VBool false) db' =
            (db', (VBool true, None))).
Proof.
  assert (json_Marshal (VBool true) = inr "true") as Hm by reflexivity.
  destruct (create_then_read "users" "u3" (VBool true) (VBool false) "true" Hm)
    as (Hb & Hb' & Hl & Hl').
  split; [reflexivity|]. split; [|split; [|split]].
  - apply (Hb users_bbolt). vm_compute. reflexivity.
  - apply Hb'.
    + discriminate.
    + unfold bbolt.storable. split; [discriminate|]. vm_compute.
      split; discriminate.
    + vm_compute. reflexivity.
  - apply (Hl users_level). vm_compute. reflexivity.
  - apply Hl'. vm_compute. reflexivity.
Defined.

(** C1 as stated fails.  On the bbolt adapter Create of a serializable
    value is refused for the empty bucket name and for the empty key, and
    the Read after it finds nothing; on both adapters Create on a key that
    holds a record is refused and the Read after it returns the old
    value. *)
Lemma create_then_read_refused :
  json_Marshal (VBool true) = inr "true" ∧
  json_Marshal (VBool false) = inr "false" ∧
  BboltBackend.Create EmptyString "u1" (VBool true) ∅ =
    (∅, Some bbolt_ErrBucketNameRequired) ∧
  BboltBackend.Read EmptyString "u1" (VBool false) ∅ =
    (∅, (VBool false, Some bbolt_ErrBucketNameRequired)) ∧
  BboltBackend.Create "users" EmptyString (VBool true) ∅ =
    ({["users" := ∅]}, Some bbolt_ErrKeyRequired) ∧
  BboltBackend.Read "users" EmptyString (VBool false) {["users" := ∅]} =
    ({["users" := ∅]}, (VBool false, Some (errors_New "key does not exist"))) ∧
  BboltBackend.Create "users" "u1" (VBool false) users_bbolt =
    (users_bbolt, Some (errors_New "key already exists")) ∧
  BboltBackend.Read "users" "u1" (VBool true) users_bbolt =
    (users_bbolt, (VBool true, None)) ∧
  LevelBackend.Create "users" "u1" (VBool false) users_level =
    (users_level, Some (errors_New "key already exists")) ∧
  LevelBackend.Read "users" "u1" (VBool true) users_level =
    (users_level, (VBool true, None)) ∧
  json_Unmarshal "false" (VBool true) = (VBool false, None).
Proof. repeat split; vm_compute; reflexivity. Qed.

Lemma create_existing_fails_witness :
  BboltBackend.Create "users" "u1" (VBool false) users_bbolt =
    (users_bbolt, Some (errors_New "key already exists")) ∧
  LevelBackend.Create "users" "u1" (VBool false) users_level =
    (users_level, Some (errors_New "key already exists")).
Proof.
  destruct (create_existing_fails "users" "u1" (VBool false) "true")
    as (Hb & Hl & _).
  split.
  - apply Hb; [apply reachable_users_bbolt|]. vm_compute. reflexivity.
  - apply Hl. vm_compute. reflexivity.
Defined.

Lemma absent_record_not_found_witness :
  (BboltBackend.Read "users" "u3" (VBool false) users_bbolt).2 =
    (VBool false, Some (errors_New "key does not exist")) ∧
  (BboltBackend.Update "users" "u3" (VBool true) users_bbolt).2 =
    Some (errors_New "key does not exist") ∧
  (BboltBackend.Delete "users" "u3" users_bbolt).2 =
    Some (errors_New "key does not exist") ∧
  BboltBackend.record (BboltBackend.Delete "users" "u1" users_bbolt).1
    "users" "u1" = None ∧
  LevelBackend.Read "users" "u3" (VBool false) users_level =
    (users_level, (VBool false, Some leveldb_ErrNotFound)) ∧
  LevelBackend.record (LevelBackend.Delete "users" "u1" users_level).1
    "users" "u1" = None.
Proof.
  destruct (absent_record_not_found "users" "u3" (VBool true) (VBool false))
    as (Hb & _ & Hl & _).
  destruct (absent_record_not_found "users" "u1" (VBool true) (VBool false))
    as (_ & Hbd & _ & Hld & _).
  destruct (Hb users_bbolt) as (Hread & Hupdate & Hdelete);
    [discriminate|vm_compute; reflexivity|].
  destruct (Hl users_level) as (Hlread & _); [vm_compute; reflexivity|].
  split; [exact Hread|]. split; [exact Hupdate|]. split; [exact Hdelete|].
  split; [|split; [exact Hlread|]].
  - apply (Hbd users_bbolt). vm_compute. reflexivity.
  - apply (Hld users_level). vm_compute. reflexivity.
Defined.

(** C3 as stated fails on the bbolt adapter for the empty bucket name: it
    holds no record, and Read returns bbolt's ErrBucketNameRequired, which
    is not of kind NotFound. *)
Lemma absent_record_unnamed_bucket :
  BboltBackend.record (∅ : gmap string (gmap string string)) EmptyString "u1"
    = None ∧
  BboltBackend.Read EmptyString "u1" (VBool false) ∅ =
    (∅, (VBool false, Some bbolt_ErrBucketNameRequired)) ∧
  BboltBackend.Update EmptyString "u1" (VBool true) ∅ =
    (∅, Some bbolt_ErrBucketNameRequired) ∧
  BboltBackend.Delete EmptyString "u1" ∅ =
    (∅, Some bbolt_ErrBucketNameRequired) ∧
  kind bbolt_ErrBucketNameRequired ≠ NotFound.
Proof. repeat split; discriminate || (vm_compute; reflexivity). Qed.

Lemma count_matches_get_witness :
  BboltBackend.Count "users" users_bbolt = (users_bbolt, (2, None)) ∧
  LevelBackend.Count "users" users_level = (users_level, (2, None)) ∧
  (∃ db', BboltBackend.Get "ghost" (VBool false) users_bbolt = (db', (Some ∅, None)) ∧
          BboltBackend.Count "ghost" users_bbolt = (db', (0, None))) ∧
  LevelBackend.Count "ghost" ∅ = (∅, (0, None)).
Proof.
  destruct (count_matches_get "users" (VBool false))
    as (Hb & Hl & _ & _ & _).
  destruct (count_matches_get "ghost" (VBool false))
    as (_ & _ & Hbe & Hle & _).
  split; [|split; [|split]].
  - rewrite (Hb users_bbolt users_bbolt
               (<["u1" := VBool true]> (<["u2" := VBool false]> ∅)));
      vm_compute; reflexivity.
  - rewrite (Hl users_level users_level
               (<["u1" := VBool true]> (<["u2" := VBool false]> ∅)));
      vm_compute; reflexivity.
  - apply Hbe; [discriminate|vm_compute; reflexivity].
  - apply (Hle ∅). intros key. reflexivity.
Defined.

Lemma underscore_collision_witness :
  LevelBackend.Create "a" "b_c" (VBool true) ∅ = ({["a_b_c" := "true"]}, None) ∧
  LevelBackend.Create "a_b" "c" (VBool false) {["a_b_c" := "true"]} =
    ({["a_b_c" := "true"]}, Some (errors_New "key already exists")) ∧
  LevelBackend.Read "a_b" "c" (VBool false) {["a_b_c" := "true"]} =
    ({["a_b_c" := "true"]}, (VBool true, None)).
Proof.
  assert (LevelBackend.Create "a" "b_c" (VBool true) ∅ =
          ({["a_b_c" := "true"]}, None)) as Hcreate by (vm_compute; reflexivity).
  destruct (underscore_collision (VBool true) (VBool false) (VBool false)
              ∅ {["a_b_c" := "true"]} Hcreate)
    as (_ & _ & Hagain & data & Hm & Hread).
  split; [exact Hcreate|]. split; [exact Hagain|].
  rewrite Hread. injection Hm as <-. reflexivity.
Defined.

Lemma missing_bucket_is_created_witness :
  BboltBackend.Read "ghost" "u1" (VBool false) users_bbolt =
    (<["ghost" := ∅]> users_bbolt,
     (VBool false, Some (errors_New "key does not exist"))) ∧
  BboltBackend.Count "ghost" users_bbolt = (<["ghost" := ∅]> users_bbolt, (0, None)).
Proof.
  destruct (missing_bucket_is_created "ghost" "u1" (VBool true) (VBool false)
              users_bbolt) as (Hread & _ & _ & Hcount).
  - discriminate.
  - vm_compute. reflexivity.
  - split; assumption.
Defined.

(** C6 as stated fails for the empty bucket name: bbolt refuses to create
    the bucket, so the call fails and the store still has no such
    bucket. *)
Lemma unnamed_bucket_not_created :
  (∅ : gmap string (gmap string string)) !! EmptyString = None ∧
  (BboltBackend.Read EmptyString "u1" (VBool false) ∅).1 !! EmptyString = None ∧
  (BboltBackend.Update EmptyString "u1" (VBool true) ∅).1 !! EmptyString = None ∧
  (BboltBackend.Delete EmptyString "u1" ∅).1 !! EmptyString = None ∧
  (BboltBackend.Count EmptyString ∅).1 !! EmptyString = None ∧
  BboltBackend.Count EmptyString ∅ = (∅, (0, Some bbolt_ErrBucketNameRequired)).
Proof. repeat split; vm_compute; reflexivity. Qed.

Lemma drop_missing_bucket_witness :
  LevelBackend.Drop "ghost" ∅ = (∅, None) ∧
  BboltBackend.Drop "ghost" users_bbolt =
    (users_bbolt, Some bbolt_ErrBucketNotFound).
Proof.
  destruct (drop_missing_bucket "ghost") as (Hl & Hb). split.
  - apply Hl. intros key. reflexivity.
  - destruct (Hb users_bbolt) as (e & Hdrop & He); [vm_compute; reflexivity|].
    rewrite Hdrop, He; [reflexivity|discriminate].
Defined.

Lemma count_missing_bucket_witness :
  BboltBackend.Count "ghost" users_bbolt = (<["ghost" := ∅]> users_bbolt, (0, None)) ∧
  LevelBackend.Count "ghost" ∅ = (∅, (0, None)).
Proof.
  destruct (count_missing_bucket "ghost") as (Hb & Hl); [discriminate|].
  split.
  - apply Hb. vm_compute. reflexivity.
  - apply Hl. intros key. reflexivity.
Defined.

Lemma failed_update_keeps_value_witness :
  BboltBackend.Update "users" "u1" VChan users_bbolt =
    (users_bbolt, Some (json_Error "json: unsupported type: chan int")) ∧
  LevelBackend.Update "users" "u1" VChan users_level =
    (users_level, Some (json_Error "json: unsupported type: chan int")).
Proof.
  assert (json_Marshal VChan =
          inl (json_Error "json: unsupported type: chan int")) as Hm
    by reflexivity.
  destruct (failed_update_keeps_value "users" "u1" VChan "true" _ Hm)
    as (Hb & Hl).
  split.
  - apply Hb; [apply reachable_users_bbolt|]. vm_compute. reflexivity.
  - apply Hl. vm_compute. reflexivity.
Defined.

End samples.

(** * Further properties of the adapters *)

(** ** Records of the bbolt adapter across a call *)
Section bbolt_records.
Import bbolt BboltBackend.
Context {Model : Type} `{!JSON Model}.
Implicit Types (db : gmap string (gmap string string)) (bucket key b k : string).

Lemma record_ensured db bucket b k :
  record (<[bucket := records db bucket]> db) b k = record db b k.
Proof.
  unfold record. destruct (decide (b = bucket)) as [->|Hne].
  - by rewrite records_ensured.
  - unfold records. by rewrite lookup_insert_ne.
Qed.

Lemma record_put db bucket key data b k :
  record (<[bucket := <[key := data]> (records db bucket)]> db) b k =
  if decide (b = bucket ∧ k = key) then Some data else record db b k.
Proof.
  unfold record. destruct (decide (b = bucket)) as [->|Hne].
  - rewrite records_insert. destruct (decide (k = key)) as [->|Hk].
    + rewrite lookup_insert_eq. by rewrite decide_True.
    + rewrite lookup_insert_ne by done. rewrite decide_False; [done|].
      by intros [_ ?].
  - unfold records at 1. rewrite lookup_insert_ne by done.
    rewrite decide_False; [done|]. by intros [? _].
Qed.

Lemma record_removed db bucket key b k :
  record (<[bucket := delete key (records db bucket)]> db) b k =
  if decide (b = bucket ∧ k = key) then None else record db b k.
Proof.
  unfold record. destruct (decide (b = bucket)) as [->|Hne].
  - rewrite records_insert. destruct (decide (k = key)) as [->|Hk].
    + rewrite lookup_delete_eq. by rewrite decide_True.
    + rewrite lookup_delete_ne by done. rewrite decide_False; [done|].
      by intros [_ ?].
  - unfold records at 1. rewrite lookup_insert_ne by done.
    rewrite decide_False; [done|]. by intros [? _].
Qed.

Lemma record_dropped db bucket b k :
  record (delete bucket db) b k =
  if decide (b = bucket) then None else record db b k.
Proof.
  unfold record, records. destruct (decide (b = bucket)) as [->|Hne].
  - by rewrite lookup_delete_eq.
  - by rewrite lookup_delete_ne.
Qed.

(** What a call of [write] does to the record under (b, k): nothing, or
    it stores the encoding of the model there. *)
Lemma write_records bucket key model db db' r b k :
  write bucket key model db = (db', r) →
  record db' b k = record db b k ∨
  (r = None ∧ b = bucket ∧ k = key ∧ bucket ≠ EmptyString ∧
   ∃ data, json_Marshal model = inr data ∧ storable key data ∧
           record db' b k = Some data).
Proof.
  destruct r as [e|]; intros Hw.
  - left. apply write_error in Hw as [->|[_ ->]]; [done|apply record_ensured].
  - apply write_inv in Hw as (data & Hb & Hm & Hs & ->).
    rewrite record_put. case_decide as Hbk.
    + right. destruct Hbk as [-> ->]. repeat split; [done|].
      by exists data.
    + by left.
Qed.

Lemma Create_records bucket key model db db' r b k :
  Create bucket key model db = (db', r) →
  record db' b k = record db b k ∨
  (r = None ∧ b = bucket ∧ k = key ∧ bucket ≠ EmptyString ∧
   ∃ data, json_Marshal model = inr data ∧ storable key data ∧
           record db' b k = Some data).
Proof.
  destruct (decide (bucket = EmptyString)) as [->|Hb].
  { destruct (Create_unnamed key model db) as [e ->]. intros [= <- _]. by left. }
  unfold Create. rewrite view_named by done.
  destruct (record db bucket key).
  - intros [= <- _]. left. apply record_ensured.
  - intros Hw. apply (write_records _ _ _ _ _ _ b k) in Hw.
    by rewrite record_ensured in Hw.
Qed.

Lemma Update_records bucket key model db db' r b k :
  Update bucket key model db = (db', r) →
  record db' b k = record db b k ∨
  (r = None ∧ b = bucket ∧ k = key ∧ bucket ≠ EmptyString ∧
   ∃ data, json_Marshal model = inr data ∧ storable key data ∧
           record db' b k = Some data).
Proof.
  destruct (decide (bucket = EmptyString)) as [->|Hb].
  { unfold Update. rewrite view_unnamed. intros [= <- _]. by left. }
  unfold Update. rewrite view_named by done.
  destruct (record db bucket key).
  - intros Hw. apply (write_records _ _ _ _ _ _ b k) in Hw.
    by rewrite record_ensured in Hw.
  - intros [= <- _]. left. apply record_ensured.
Qed.

Lemma Delete_records bucket key db db' r b k :
  Delete bucket key db = (db', r) →
  record db' b k = record db b k ∨
  (r = None ∧ b = bucket ∧ k = key ∧ bucket ≠ EmptyString ∧
   record db' b k = None).
Proof.
  destruct (decide (bucket = EmptyString)) as [->|Hb].
  { unfold Delete. rewrite view_unnamed. intros [= <- _]. by left. }
  destruct (record db bucket key) as [data|] eqn:Hr.
  - rewrite (Delete_existing _ _ _ data) by done. intros [= <- <-].
    rewrite record_removed. case_decide as Hbk.
    + right. by destruct Hbk as [-> ->].
    + by left.
  - rewrite Delete_missing by done. intros [= <- _]. left. apply record_ensured.
Qed.

Lemma Drop_records bucket db db' r b k :
  Drop bucket db = (db', r) →
  record db' b k = record db b k ∨
  (r = None ∧ b = bucket ∧ record db' b k = None).
Proof.
  destruct (db !! bucket) as [c|] eqn:Hdb.
  - rewrite Drop_existing by eauto. intros [= <- <-].
    rewrite record_dropped. case_decide; [by right|by left].
  - destruct (Drop_missing bucket db Hdb) as (e & -> & _).
    intros [= <- _]. by left.
Qed.

(** The calls that only read leave the store as it is or with the bucket
    ensured. *)
Lemma Read_store bucket key model db :
  (Read bucket key model db).1 = db ∨
  (Read bucket key model db).1 = <[bucket := records db bucket]> db.
Proof.
  destruct (decide (bucket = EmptyString)) as [->|Hb]; [by left|].
  right. by rewrite Read_named.
Qed.

Lemma Count_store bucket db :
  (Count bucket db).1 = db ∨
  (Count bucket db).1 = <[bucket := records db bucket]> db.
Proof.
  destruct (decide (bucket = EmptyString)) as [->|Hb]; [by left|].
  right. by rewrite Count_named.
Qed.

Lemma Get_store bucket model db :
  (Get bucket model db).1 = db ∨
  (Get bucket model db).1 = <[bucket := records db bucket]> db.
Proof.
  destruct (decide (bucket = EmptyString)) as [->|Hb]; [by left|].
  right. rewrite Get_named by done.
  by destruct (Bucket_ForEach _ _ _) as [[? ?] ?].
Qed.

End bbolt_records.

(** ** Physical keys of the goleveldb adapter *)
Section physical_keys.
Implicit Types b k : string.

(** Two names without an underscore collide on no key. *)
Lemma physical_inj b b' k k' :
  underscore_free b = true → underscore_free b' = true →
  (b +:+ "_") +:+ k = (b' +:+ "_") +:+ k' → b = b' ∧ k = k'.
Proof.
  assert (∀ s r, (s +:+ "_") +:+ r = s +:+ String "_"%char r) as Hform.
  { intros s r. by rewrite app_assoc. }
  rewrite !Hform. clear Hform.
  revert b'. induction b as [|a b IH]; intros [|c b'] Hb Hb'.
  - by intros [= ->].
  - rewrite app_cons. intros [= <- _].
    by simpl in Hb'.
  - rewrite app_cons. intros [= -> _].
    by simpl in Hb.
  - rewrite !app_cons. intros [= -> Heq].
    simpl in Hb, Hb'. case_decide; [done|].
    by destruct (IH b' Hb Hb' Heq) as [-> ->].
Qed.

Lemma prefix_own_bucket b b' k :
  underscore_free b = true → underscore_free b' = true →
  HasPrefix ((b' +:+ "_") +:+ k) (b +:+ "_") = true → b = b'.
Proof.
  intros Hb Hb' [r Hr]%HasPrefix_inv.
  symmetry in Hr. by destruct (physical_inj b b' r k Hb Hb' Hr).
Qed.

End physical_keys.

(** ** Stores of the goleveldb adapter across a call *)
Section level_stores.
Import leveldb LevelBackend.
Context {Model : Type} `{!JSON Model}.
Implicit Types (db : gmap string string) (bucket key : string).

Lemma Create_store_level bucket key model db db' r :
  Create bucket key model db = (db', r) →
  (r ≠ None ∧ db' = db) ∨
  (r = None ∧ record db bucket key = None ∧
   ∃ data, json_Marshal model = inr data ∧
           db' = <[(bucket +:+ "_") +:+ key := data]> db).
Proof.
  unfold record, Create, DB_Get, DB_Put.
  destruct (db !! _) as [old|]; [intros [= <- <-]; by left|].
  destruct (json_Marshal model) as [e|data]; intros [= <- <-]; [by left|].
  right. repeat split. by exists data.
Qed.

Lemma Update_store_level bucket key model db db' r :
  Update bucket key model db = (db', r) →
  (r ≠ None ∧ db' = db) ∨
  (r = None ∧ is_Some (record db bucket key) ∧
   ∃ data, json_Marshal model = inr data ∧
           db' = <[(bucket +:+ "_") +:+ key := data]> db).
Proof.
  unfold record, Update, DB_Get, DB_Put.
  destruct (db !! _) as [old|]; [|intros [= <- <-]; by left].
  destruct (json_Marshal model) as [e|data]; intros [= <- <-]; [by left|].
  right. repeat split; [by exists old|]. by exists data.
Qed.

Lemma Delete_store_level bucket key db db' r :
  Delete bucket key db = (db', r) →
  (r ≠ None ∧ db' = db) ∨
  (r = None ∧ is_Some (record db bucket key) ∧
   db' = delete ((bucket +:+ "_") +:+ key) db).
Proof.
  unfold record, Delete, DB_Get, DB_Delete.
  destruct (db !! _) as [old|]; intros [= <- <-]; [|by left].
  right. repeat split. by exists old.
Qed.

(** The scan of a store with one more pair, one pair less, or one pair
    overwritten. *)
Lemma NewIterator_insert db k v slice :
  db !! k = None →
  NewIterator (<[k := v]> db) slice ≡ₚ
  filter (λ kv, in_range slice kv.1 = true) ((k, v) :: sorted_items db).
Proof.
  intros Hk. unfold NewIterator. apply filter_Permutation.
  rewrite !sorted_items_Permutation. by apply map_to_list_insert.
Qed.

Lemma NewIterator_delete db k v slice :
  db !! k = Some v →
  NewIterator db slice ≡ₚ
  filter (λ kv, in_range slice kv.1 = true) ((k, v) :: sorted_items (delete k db)).
Proof.
  intros Hk. unfold NewIterator. apply filter_Permutation.
  rewrite !sorted_items_Permutation. symmetry. by apply map_to_list_delete.
Qed.

Lemma scan_length_insert db prefix k v :
  db !! k = None →
  length (NewIterator (<[k := v]> db) (BytesPrefix prefix)) =
  if HasPrefix k prefix
  then S (length (NewIterator db (BytesPrefix prefix)))
  else length (NewIterator db (BytesPrefix prefix)).
Proof.
  intros Hk. rewrite (NewIterator_insert db k v _ Hk).
  rewrite filter_cons. simpl. rewrite in_range_BytesPrefix.
  destruct (HasPrefix k prefix); by case_decide.
Qed.

Lemma scan_length_delete db prefix k v :
  db !! k = Some v →
  length (NewIterator db (BytesPrefix prefix)) =
  if HasPrefix k prefix
  then S (length (NewIterator (delete k db) (BytesPrefix prefix)))
  else length (NewIterator (delete k db) (BytesPrefix prefix)).
Proof.
  intros Hk. rewrite (NewIterator_delete db k v _ Hk).
  rewrite filter_cons. simpl. rewrite in_range_BytesPrefix.
  destruct (HasPrefix k prefix); by case_decide.
Qed.

Lemma scan_length_overwrite db prefix k v old :
  db !! k = Some old →
  length (NewIterator (<[k := v]> db) (BytesPrefix prefix)) =
  length (NewIterator db (BytesPrefix prefix)).
Proof.
  intros Hk. rewrite <- insert_delete_eq.
  rewrite scan_length_insert by apply lookup_delete_eq.
  by rewrite (scan_length_delete db prefix k old Hk).
Qed.

(** The mapping of [Get] has a key exactly when the bucket holds a record
    under it. *)
Lemma Get_keys_level bucket model db db' results key :
  Get bucket model db = (db', (Some results, None)) →
  is_Some (results !! key) ↔ is_Some (record db bucket key).
Proof.
  intros [_ Hdom]%Get_inv_level.
  rewrite <- elem_of_dom, Hdom, elem_of_list_to_set, list_elem_of_fmap.
  unfold record. split.
  - intros [[k v] [-> [Hk Hp]%elem_of_NewIterator]]. simpl.
    apply HasPrefix_inv in Hp as [r ->]. rewrite TrimPrefix_app. by exists v.
  - intros [v Hv]. exists ((bucket +:+ "_") +:+ key, v). simpl.
    rewrite TrimPrefix_app. split; [done|].
    apply elem_of_NewIterator. split; [done|apply HasPrefix_app].
Qed.

End level_stores.

(** ** Outcomes of the bbolt adapter *)
Section bbolt_outcomes.
Import bbolt BboltBackend.
Context {Model : Type} `{!JSON Model}.
Implicit Types (db : gmap string (gmap string string)) (bucket key b k : string).

Lemma Update_storable bucket key model data old db :
  bucket ≠ EmptyString → record db bucket key = Some old →
  json_Marshal model = inr data → storable key data →
  Update bucket key model db =
    (<[bucket := <[key := data]> (records db bucket)]> db, None).
Proof.
  intros Hb Hr Hm Hs. unfold Update. rewrite view_named, Hr by done.
  rewrite (write_storable _ _ _ data) by done.
  by rewrite records_ensured, insert_insert_eq.
Qed.

Lemma Update_inv bucket key model db db' :
  Update bucket key model db = (db', None) →
  ∃ data, bucket ≠ EmptyString ∧ is_Some (record db bucket key) ∧
          json_Marshal model = inr data ∧ storable key data ∧
          db' = <[bucket := <[key := data]> (records db bucket)]> db.
Proof.
  destruct (decide (bucket = EmptyString)) as [->|Hb].
  { unfold Update. by rewrite view_unnamed. }
  unfold Update. rewrite view_named by done.
  destruct (record db bucket key) as [old|] eqn:Hr; [|done].
  intros (data & _ & Hm & Hs & ->)%write_inv. exists data.
  rewrite records_ensured, insert_insert_eq.
  split; [done|]. split; [by exists old|]. done.
Qed.

Lemma Delete_inv bucket key db db' :
  Delete bucket key db = (db', None) →
  bucket ≠ EmptyString ∧ is_Some (record db bucket key) ∧
  db' = <[bucket := delete key (records db bucket)]> db.
Proof.
  destruct (decide (bucket = EmptyString)) as [->|Hb].
  { unfold Delete. by rewrite view_unnamed. }
  destruct (record db bucket key) as [data|] eqn:Hr.
  - rewrite (Delete_existing _ _ _ data) by done. intros [= <-]. eauto.
  - by rewrite Delete_missing.
Qed.

(** What b.Put answers to a key or value it does not take. *)
Lemma Bucket_Put_refused tx name (c : gmap string string) key value :
  ¬ storable key value →
  ∃ e, Bucket_Put tx name c key value = (tx, Some e) ∧
       (e = bbolt_ErrKeyRequired ∨ e = bbolt_ErrKeyTooLarge ∨
        e = bbolt_ErrValueTooLarge) ∧
       (key = EmptyString → e = bbolt_ErrKeyRequired).
Proof.
  intros Hs. unfold Bucket_Put. case_decide as Hk.
  { exists bbolt_ErrKeyRequired. eauto. }
  destruct (Z.gtb_spec (Z.of_nat (String.length key)) MaxKeySize).
  { exists bbolt_ErrKeyTooLarge. repeat split; eauto. done. }
  destruct (Z.gtb_spec (Z.of_nat (String.length value)) MaxValueSize).
  { exists bbolt_ErrValueTooLarge. repeat split; eauto. done. }
  destruct Hs. unfold storable. repeat split; done || lia.
Qed.

Lemma write_refused bucket key model data db :
  bucket ≠ EmptyString → json_Marshal model = inr data →
  ¬ storable key data →
  ∃ e, write bucket key model db =
         (<[bucket := records db bucket]> db, Some e) ∧
       (e = bbolt_ErrKeyRequired ∨ e = bbolt_ErrKeyTooLarge ∨
        e = bbolt_ErrValueTooLarge) ∧
       (key = EmptyString → e = bbolt_ErrKeyRequired).
Proof.
  intros Hb Hm Hs. unfold write. rewrite Hm, checkBucket_named by done.
  unfold DB_Update, Tx_Bucket. rewrite lookup_insert_eq.
  destruct (Bucket_Put_refused (<[bucket := records db bucket]> db) bucket
              (records db bucket) key data Hs) as (e & -> & He).
  by exists e.
Qed.

(** The errors of [write]: the one of json.Marshal, or one of bbolt. *)
Lemma write_errors bucket key model db db' e :
  write bucket key model db = (db', Some e) →
  json_Marshal model = inl e ∨ e = bbolt_ErrBucketNameRequired ∨
  e = bbolt_ErrKeyRequired ∨ e = bbolt_ErrKeyTooLarge ∨
  e = bbolt_ErrValueTooLarge.
Proof.
  destruct (json_Marshal model) as [e'|data] eqn:Hm.
  { rewrite (write_unserializable _ _ _ _ e' Hm). intros [= _ <-]. by left. }
  destruct (decide (bucket = EmptyString)) as [->|Hb].
  { unfold write. rewrite Hm, checkBucket_unnamed. intros [= _ <-]. eauto. }
  assert (Decision (storable key data)) as [Hs|Hs]
    by (unfold storable; apply _).
  { by rewrite (write_storable _ _ _ data). }
  destruct (write_refused bucket key model data db Hb Hm Hs)
    as (e' & -> & He & _).
  intros [= _ <-]. tauto.
Qed.

(** The errors of the iteration of [Get] are errors of json.Unmarshal. *)
Lemma for_each_Get_step_errors items (s s' : Model * gmap string Model) e :
  for_each Get_step items s = (s', Some e) →
  ∃ data model, (json_Unmarshal data model).2 = Some e.
Proof.
  revert s. induction items as [|[key value] items IH]; intros [model results].
  - done.
  - simpl. destruct (json_Unmarshal value model) as [model1 [e1|]] eqn:Hu.
    + intros [= _ <-]. exists value, model. by rewrite Hu.
    + apply IH.
Qed.

End bbolt_outcomes.

(** ** The bbolt adapter: writes, reads and drops *)
Section bbolt_extras.
Import bbolt BboltBackend.
Context {Model : Type} `{!JSON Model}.
Implicit Types (db : gmap string (gmap string string)) (bucket key b k : string).

(** X1: on the bbolt adapter, after an Update that returned nil the bucket
    holds the encoding of the new value under the key, and Read returns
    what decoding it into out returns, leaving the store as it is; Update
    does return nil when the record exists, the bucket has a name and
    bbolt takes the key and the encoding. *)
Theorem bbolt_update_then_read bucket key (value out : Model) (data : string) :
  json_Marshal value = inr data →
  (∀ db db', Update bucket key value db = (db', None) →
     record db' bucket key = Some data ∧
     Read bucket key out db' = (db', json_Unmarshal data out)) ∧
  (∀ db old, bucket ≠ EmptyString → storable key data →
     record db bucket key = Some old →
     ∃ db', Update bucket key value db = (db', None)).
Proof.
  intros Hm. split.
  - intros db db' (data' & Hb & _ & Hm' & _ & ->)%Update_inv.
    assert (data' = data) as -> by congruence.
    rewrite Read_named by done.
    rewrite records_insert, record_insert, insert_insert_eq.
    by rewrite lookup_insert_eq.
  - intros db old Hb Hs Hr. eexists. by apply (Update_storable _ _ _ data old).
Qed.

(** X2: on the bbolt adapter, Create, Update and Delete on (bucket, key),
    whether they succeed or fail, leave the record of every other
    (bucket, key) pair as it was. *)
Theorem bbolt_writes_are_local bucket key (value : Model) db b k :
  (b, k) ≠ (bucket, key) →
  record (Create bucket key value db).1 b k = record db b k ∧
  record (Update bucket key value db).1 b k = record db b k ∧
  record (Delete bucket key db).1 b k = record db b k.
Proof.
  intros Hne. split; [|split].
  - destruct (Create bucket key value db) as [db' r] eqn:Hop.
    apply (Create_records _ _ _ _ _ _ b k) in Hop as [?|(_ & -> & -> & _)]; done.
  - destruct (Update bucket key value db) as [db' r] eqn:Hop.
    apply (Update_records _ _ _ _ _ _ b k) in Hop as [?|(_ & -> & -> & _)]; done.
  - destruct (Delete bucket key db) as [db' r] eqn:Hop.
    apply (Delete_records _ _ _ _ _ b k) in Hop as [?|(_ & -> & -> & _)]; done.
Qed.

(** X3: on the bbolt adapter, a Create, Update, Delete or Drop that returns
    an error has changed no record of the store (a bucket without records
    may have been added). *)
Theorem bbolt_failed_calls_keep_records bucket key (value : Model) (e : error)
    db db' b k :
  Create bucket key value db = (db', Some e) ∨
  Update bucket key value db = (db', Some e) ∨
  Delete bucket key db = (db', Some e) ∨
  Drop bucket db = (db', Some e) →
  record db' b k = record db b k.
Proof.
  intros [Hop|[Hop|[Hop|Hop]]].
  - apply (Create_records _ _ _ _ _ _ b k) in Hop as [?|(? & _)]; done.
  - apply (Update_records _ _ _ _ _ _ b k) in Hop as [?|(? & _)]; done.
  - apply (Delete_records _ _ _ _ _ b k) in Hop as [?|(? & _)]; done.
  - apply (Drop_records _ _ _ _ b k) in Hop as [?|(? & _)]; done.
Qed.

(** X4: on the bbolt adapter, Read, Count and Get change no record: the
    store after the call is the store before it, or that store with the
    bucket of the call added without records. *)
Theorem bbolt_reads_keep_records bucket key (model : Model) db :
  (∀ b k, record (Read bucket key model db).1 b k = record db b k) ∧
  (∀ b k, record (Count bucket db).1 b k = record db b k) ∧
  (∀ b k, record (Get bucket model db).1 b k = record db b k) ∧
  (is_Some (db !! bucket) →
     (Read bucket key model db).1 = db ∧ (Count bucket db).1 = db ∧
     (Get bucket model db).1 = db).
Proof.
  split; [|split; [|split]].
  - intros b k. destruct (Read_store bucket key model db) as [->| ->];
      [done|apply record_ensured].
  - intros b k. destruct (Count_store bucket db) as [->| ->];
      [done|apply record_ensured].
  - intros b k. destruct (Get_store bucket model db) as [->| ->];
      [done|apply record_ensured].
  - intros Hb.
    destruct (Read_store bucket key model db) as [->| ->],
             (Count_store bucket db) as [->| ->],
             (Get_store bucket model db) as [->| ->];
      by rewrite ?ensured_existing.
Qed.

(** X5: on the bbolt adapter, Drop of a bucket that exists returns nil and
    removes the bucket with all its records, leaving the other buckets as
    they are; Get on the bucket afterwards returns the empty mapping and
    Count 0 (both put the bucket back, empty). *)
Theorem bbolt_drop_removes_bucket bucket (model : Model) db :
  is_Some (db !! bucket) →
  ∃ db', Drop bucket db = (db', None) ∧
         db' !! bucket = None ∧
         (∀ key, record db' bucket key = None) ∧
         (∀ b, b ≠ bucket → db' !! b = db !! b) ∧
         (bucket ≠ EmptyString →
            Get bucket model db' = (<[bucket := ∅]> db', (Some ∅, None)) ∧
            Count bucket db' = (<[bucket := ∅]> db', (0, None))).
Proof.
  intros Hb. exists (delete bucket db).
  split; [by apply Drop_existing|].
  split; [apply lookup_delete_eq|].
  split; [|split].
  - intros key. rewrite record_dropped. by rewrite decide_True.
  - intros b Hne. by rewrite lookup_delete_ne.
  - intros Hname.
    assert (records (delete bucket db) bucket = ∅) as Hempty.
    { apply records_missing, lookup_delete_eq. }
    rewrite Get_named, Count_named by done. rewrite Hempty.
    unfold Bucket_ForEach. by rewrite sorted_items_empty.
Qed.

(** X6: on the bbolt adapter, a Create that returned nil raises Count of
    the bucket by one, a Delete that returned nil lowers it by one, and an
    Update that returned nil leaves it as it is (Count being the Go [int]
    of the number of records). *)
Theorem bbolt_count_tracks_writes bucket key (value : Model) db db' :
  (Create bucket key value db = (db', None) →
     ∃ n : nat, (Count bucket db).2 = (int_of_nat n, None) ∧
                (Count bucket db').2 = (int_of_nat (S n), None)) ∧
  (Update bucket key value db = (db', None) →
     (Count bucket db').2 = (Count bucket db).2) ∧
  (Delete bucket key db = (db', None) →
     ∃ n : nat, (Count bucket db).2 = (int_of_nat (S n), None) ∧
                (Count bucket db').2 = (int_of_nat n, None)).
Proof.
  split; [|split].
  - intros (data & Hb & Hr & _ & _ & ->)%Create_inv.
    exists (size (records db bucket)).
    rewrite !Count_named by done. rewrite records_insert.
    by rewrite map_size_insert_None.
  - intros (data & Hb & Hr & _ & _ & ->)%Update_inv.
    rewrite !Count_named by done. rewrite records_insert.
    by rewrite map_size_insert_Some.
  - intros (Hb & [old Hr] & ->)%Delete_inv.
    exists (size (delete key (records db bucket))).
    rewrite !Count_named by done. rewrite records_insert.
    split; [|done]. simpl. do 2 f_equal.
    rewrite <- (insert_delete_id (records db bucket) key old) at 1 by done.
    apply map_size_insert_None, lookup_delete_eq.
Qed.

(** X7: on the bbolt adapter, when Get returns its mapping without an
    error, the mapping has a key exactly when the bucket holds a record
    under that key. *)
Theorem bbolt_get_keys_exact bucket (model : Model) db db' results key :
  Get bucket model db = (db', (Some results, None)) →
  is_Some (results !! key) ↔ is_Some (record db bucket key).
Proof.
  intros (_ & _ & Hdom)%Get_keys.
  unfold record. by rewrite <- !elem_of_dom, Hdom.
Qed.

End bbolt_extras.

(** ** The bbolt adapter: what a store holds and what a call answers *)
Section bbolt_invariants.
Import bbolt BboltBackend.
Context {Model : Type} `{!JSON Model}.
Implicit Types (db : gmap string (gmap string string)) (bucket key b k : string).

(** X8: in every store the bbolt adapter can produce from a new file, a
    record sits in a bucket with a non-empty name, under a key and with
    bytes that bbolt's Put takes (a non-empty key of at most 32768 bytes),
    and its bytes are the json.Marshal encoding of some value. *)
Theorem bbolt_reachable_records db bucket key data :
  reachable db → record db bucket key = Some data →
  bucket ≠ EmptyString ∧ storable key data ∧
  ∃ value : Model, json_Marshal value = inr data.
Proof.
  intros Hdb. revert bucket key data.
  induction Hdb as [|bucket0 db _ IH|bucket0 key0 model db _ IH
                    |bucket0 key0 db _ IH|bucket0 db _ IH
                    |bucket0 model db _ IH|bucket0 key0 model db _ IH
                    |bucket0 key0 model db _ IH]; intros bucket key data Hr.
  - unfold record, records in Hr. by rewrite lookup_empty in Hr.
  - apply IH. destruct (Count_store bucket0 db) as [Hs|Hs];
      rewrite Hs in Hr; [done|by rewrite record_ensured in Hr].
  - destruct (Create bucket0 key0 model db) as [db' r] eqn:Hop.
    apply (Create_records _ _ _ _ _ _ bucket key) in Hop
      as [Hsame|(_ & -> & -> & Hb & data' & Hm & Hs & Hnew)]; simpl in Hr.
    + apply IH. by rewrite <- Hsame.
    + assert (data' = data) as -> by congruence. eauto.
  - destruct (Delete bucket0 key0 db) as [db' r] eqn:Hop.
    apply (Delete_records _ _ _ _ _ bucket key) in Hop
      as [Hsame|(_ & _ & _ & _ & Hnone)]; simpl in Hr.
    + apply IH. by rewrite <- Hsame.
    + congruence.
  - destruct (Drop bucket0 db) as [db' r] eqn:Hop.
    apply (Drop_records _ _ _ _ bucket key) in Hop
      as [Hsame|(_ & _ & Hnone)]; simpl in Hr.
    + apply IH. by rewrite <- Hsame.
    + congruence.
  - apply IH. destruct (Get_store bucket0 model db) as [Hs|Hs];
      rewrite Hs in Hr; [done|by rewrite record_ensured in Hr].
  - apply IH. destruct (Read_store bucket0 key0 model db) as [Hs|Hs];
      rewrite Hs in Hr; [done|by rewrite record_ensured in Hr].
  - destruct (Update bucket0 key0 model db) as [db' r] eqn:Hop.
    apply (Update_records _ _ _ _ _ _ bucket key) in Hop
      as [Hsame|(_ & -> & -> & Hb & data' & Hm & Hs & Hnew)]; simpl in Hr.
    + apply IH. by rewrite <- Hsame.
    + assert (data' = data) as -> by congruence. eauto.
Qed.

(** X9: on the bbolt adapter, in a named bucket, a key or an encoding
    that bbolt's Put does not take (the empty key, a key over 32768 bytes,
    a value over 2^31 - 2 bytes) makes Create on a free key and Update on an
    existing record return bbolt's error for it (ErrKeyRequired for the
    empty key); no record is stored or changed, and Create leaves the
    bucket ensured. *)
Theorem bbolt_refuses_unstorable bucket key (value : Model) (data : string) db :
  bucket ≠ EmptyString → json_Marshal value = inr data →
  ¬ storable key data →
  ∃ e, (e = bbolt_ErrKeyRequired ∨ e = bbolt_ErrKeyTooLarge ∨
        e = bbolt_ErrValueTooLarge) ∧
       (key = EmptyString → e = bbolt_ErrKeyRequired) ∧
       (record db bucket key = None →
          Create bucket key value db =
            (<[bucket := records db bucket]> db, Some e)) ∧
       (is_Some (record db bucket key) →
          Update bucket key value db = (db, Some e)).
Proof.
  intros Hb Hm Hs.
  destruct (write_refused bucket key value data
              (<[bucket := records db bucket]> db) Hb Hm Hs)
    as (e & Hw & He & Hk).
  rewrite records_ensured, insert_insert_eq in Hw.
  exists e. split; [done|]. split; [done|]. split.
  - intros Hr. unfold Create. by rewrite view_named, Hr.
  - intros [old Hr]. unfold Update. rewrite view_named, Hr by done.
    rewrite Hw. rewrite ensured_existing; [done|].
    apply record_Some in Hr as (c & -> & _). by eexists.
Qed.

(** X10: the bbolt adapter never uses the nil bucket that tx.Bucket gives
    for a missing bucket: when the errors of the JSON codec are not that
    dereference, no method returns it, on any store and for any
    arguments. *)
Theorem bbolt_no_nil_dereference bucket key (value model : Model) db :
  (∀ v e, json_Marshal v = inl e → e ≠ runtime_nil_dereference) →
  (∀ data m e, (json_Unmarshal data m).2 = Some e →
               e ≠ runtime_nil_dereference) →
  (Count bucket db).2.2 ≠ Some runtime_nil_dereference ∧
  (Create bucket key value db).2 ≠ Some runtime_nil_dereference ∧
  (Delete bucket key db).2 ≠ Some runtime_nil_dereference ∧
  (Drop bucket db).2 ≠ Some runtime_nil_dereference ∧
  (Get bucket model db).2.2 ≠ Some runtime_nil_dereference ∧
  (Read bucket key model db).2.2 ≠ Some runtime_nil_dereference ∧
  (Update bucket key value db).2 ≠ Some runtime_nil_dereference.
Proof.
  intros Hmarshal Hunmarshal.
  assert (∀ bucket0 db0 db1 e,
            write bucket0 key value db0 = (db1, Some e) →
            e ≠ runtime_nil_dereference) as Hwrite.
  { intros bucket0 db0 db1 e [Hm|[->|[->|[->| ->]]]]%write_errors;
      [by eapply Hmarshal|done..]. }
  assert (∀ bucket0 db0, (write bucket0 key value db0).2
                         ≠ Some runtime_nil_dereference) as Hwrite'.
  { intros bucket0 db0. destruct (write bucket0 key value db0) as [db1 [e|]] eqn:Hw;
      [|done]. simpl. intros [= ->]. by eapply Hwrite. }
  destruct (decide (bucket = EmptyString)) as [->|Hb].
  { repeat split; try done.
    - unfold Create. rewrite view_unnamed. apply Hwrite'.
    - unfold Drop, DB_Update, Tx_DeleteBucket.
      by repeat case_match; simplify_eq/=. }
  split; [by rewrite Count_named|].
  split.
  { unfold Create. rewrite view_named by done.
    destruct (record db bucket key); [done|apply Hwrite']. }
  split.
  { destruct (record db bucket key) as [data|] eqn:Hr.
    - by rewrite (Delete_existing _ _ _ data).
    - by rewrite Delete_missing. }
  split.
  { unfold Drop, DB_Update, Tx_DeleteBucket.
    by repeat case_match; simplify_eq/=. }
  split.
  { rewrite Get_named by done. unfold Bucket_ForEach.
    destruct (for_each _ _ _) as [[model' results] [e|]] eqn:Hfe; [|done].
    apply for_each_Get_step_errors in Hfe as (data & m & Hu).
    simpl. intros [= ->]. by eapply Hunmarshal. }
  split.
  { rewrite Read_named by done.
    destruct (record db bucket key) as [data|]; [|done]. simpl.
    destruct (json_Unmarshal data model) as [m [e|]] eqn:Hu; [|done].
    simpl. intros [= ->]. eapply (Hunmarshal data model); [|done].
    by rewrite Hu. }
  unfold Update. rewrite view_named by done.
  destruct (record db bucket key); [apply Hwrite'|done].
Qed.

(** X11: on the bbolt adapter, Get on a named bucket that does not exist
    returns the empty mapping, and Create of a value that cannot be
    serialized returns the error of json.Marshal; both leave the store
    with that bucket added, empty. *)
Theorem bbolt_get_and_create_ensure_bucket bucket key (value model : Model)
    (e : error) db :
  bucket ≠ EmptyString → db !! bucket = None →
  Get bucket model db = (<[bucket := ∅]> db, (Some ∅, None)) ∧
  (json_Marshal value = inl e →
     Create bucket key value db = (<[bucket := ∅]> db, Some e)).
Proof.
  intros Hb Hdb. split.
  - rewrite Get_named by done. rewrite records_missing by done.
    unfold Bucket_ForEach. by rewrite sorted_items_empty.
  - intros He. unfold Create. rewrite view_named by done.
    unfold record. rewrite records_missing, lookup_empty by done.
    by apply write_unserializable.
Qed.

(** X12: on the bbolt adapter, a Delete that returned nil leaves the
    bucket in the store, also when it took the last record: a Drop of the
    bucket right after it returns nil and removes the bucket. *)
Theorem bbolt_delete_keeps_bucket bucket key db db' :
  Delete bucket key db = (db', None) →
  is_Some (db' !! bucket) ∧
  Drop bucket db' = (delete bucket db', None).
Proof.
  intros (Hb & _ & ->)%Delete_inv.
  assert (is_Some (<[bucket := delete key (records db bucket)]> db !! bucket))
    as Hex by (rewrite lookup_insert_eq; eauto).
  split; [done|]. by apply Drop_existing.
Qed.

End bbolt_invariants.

(** ** The goleveldb adapter: writes, scans and drops *)
Section level_extras.
Import leveldb LevelBackend.
Context {Model : Type} `{!JSON Model}.
Implicit Types (db : gmap string string) (bucket key : string).

Lemma Get_store_level bucket model db : (Get bucket model db).1 = db.
Proof. unfold Get, Iterator_Error. by destruct (Get_loop _ _ _ _). Qed.

Lemma Read_store_level bucket key model db : (Read bucket key model db).1 = db.
Proof. by rewrite Read_level. Qed.

(** X13: on the goleveldb adapter, after an Update that returned nil the
    store holds the encoding of the new value under (bucket, key), and
    Read returns what decoding it into out returns; Update does return nil
    whenever the record exists and the value can be serialized. *)
Theorem level_update_then_read bucket key (value out : Model) (data : string) :
  json_Marshal value = inr data →
  (∀ db db', Update bucket key value db = (db', None) →
     record db' bucket key = Some data ∧
     Read bucket key out db' = (db', json_Unmarshal data out)) ∧
  (∀ db old, record db bucket key = Some old →
     Update bucket key value db =
       (<[(bucket +:+ "_") +:+ key := data]> db, None)).
Proof.
  intros Hm. split.
  - intros db db' [[? _]|(_ & _ & data' & Hm' & ->)]%Update_store_level; [done|].
    assert (data' = data) as -> by congruence.
    assert (record (<[(bucket +:+ "_") +:+ key := data]> db) bucket key
            = Some data) as Hr by apply lookup_insert_eq.
    split; [done|]. by rewrite Read_level, Hr.
  - intros db old Hr. unfold record in Hr.
    unfold Update, DB_Get, DB_Put. by rewrite Hr, Hm.
Qed.

Lemma level_other_keys bucket key (value : Model) db p :
  p ≠ (bucket +:+ "_") +:+ key →
  (Create bucket key value db).1 !! p = db !! p ∧
  (Update bucket key value db).1 !! p = db !! p ∧
  (Delete bucket key db).1 !! p = db !! p.
Proof.
  intros Hp. split; [|split].
  - destruct (Create bucket key value db) as [db' r] eqn:Hop.
    apply Create_store_level in Hop as [[_ ->]|(_ & _ & data & _ & ->)];
      [done|]. simpl. by rewrite lookup_insert_ne.
  - destruct (Update bucket key value db) as [db' r] eqn:Hop.
    apply Update_store_level in Hop as [[_ ->]|(_ & _ & data & _ & ->)];
      [done|]. simpl. by rewrite lookup_insert_ne.
  - destruct (Delete bucket key db) as [db' r] eqn:Hop.
    apply Delete_store_level in Hop as [[_ ->]|(_ & _ & ->)];
      [done|]. simpl. by rewrite lookup_delete_ne.
Qed.

(** X14: on the goleveldb adapter, Create, Update and Delete on
    (bucket, key) touch at most the physical key bucket_key: every other
    physical key keeps its value, and a call that returns an error leaves
    the whole store as it is. *)
Theorem level_writes_are_local bucket key (value : Model) db :
  (∀ p, p ≠ (bucket +:+ "_") +:+ key →
     (Create bucket key value db).1 !! p = db !! p ∧
     (Update bucket key value db).1 !! p = db !! p ∧
     (Delete bucket key db).1 !! p = db !! p) ∧
  (∀ db' e,
     Create bucket key value db = (db', Some e) ∨
     Update bucket key value db = (db', Some e) ∨
     Delete bucket key db = (db', Some e) → db' = db).
Proof.
  split.
  - intros p Hp. by apply level_other_keys.
  - intros db' e [Hop|[Hop|Hop]].
    + by apply Create_store_level in Hop as [[_ ->]|(? & _)].
    + by apply Update_store_level in Hop as [[_ ->]|(? & _)].
    + by apply Delete_store_level in Hop as [[_ ->]|(? & _)].
Qed.

(** X15: on the goleveldb adapter, Drop always returns nil; it deletes
    exactly the physical keys that start with bucket_, so the bucket holds
    no record afterwards and every other physical key keeps its value;
    Get on the bucket then returns the empty mapping and Count 0. *)
Theorem level_drop_clears_bucket bucket (model : Model) db :
  ∃ db', Drop bucket db = (db', None) ∧
         (∀ p, db' !! p =
               if HasPrefix p (bucket +:+ "_") then None else db !! p) ∧
         (∀ key, record db' bucket key = None) ∧
         Get bucket model db' = (db', (Some ∅, None)) ∧
         Count bucket db' = (db', (0, None)).
Proof.
  destruct (Drop_lookup bucket db) as (db' & Hdrop & Hdb').
  exists db'. split; [done|]. split; [done|].
  assert (∀ key, record db' bucket key = None) as Hnone.
  { intros key. unfold record. by rewrite Hdb', HasPrefix_app. }
  split; [done|]. split.
  - unfold Get. by rewrite NewIterator_no_record.
  - rewrite Count_scan. by rewrite NewIterator_no_record.
Qed.

(** X16: on the goleveldb adapter, a Create that returned nil raises Count
    of the bucket by one, a Delete that returned nil lowers it by one, and
    an Update that returned nil leaves it as it is (Count being the Go
    [int] of the number of scanned keys). *)
Theorem level_count_tracks_writes bucket key (value : Model) db db' :
  (Create bucket key value db = (db', None) →
     ∃ n : nat, (Count bucket db).2 = (int_of_nat n, None) ∧
                (Count bucket db').2 = (int_of_nat (S n), None)) ∧
  (Update bucket key value db = (db', None) →
     (Count bucket db').2 = (Count bucket db).2) ∧
  (Delete bucket key db = (db', None) →
     ∃ n : nat, (Count bucket db).2 = (int_of_nat (S n), None) ∧
                (Count bucket db').2 = (int_of_nat n, None)).
Proof.
  split; [|split].
  - intros [[? _]|(_ & Hr & data & _ & ->)]%Create_store_level; [done|].
    eexists. rewrite !Count_scan. simpl. split; [done|].
    rewrite scan_length_insert by done. by rewrite HasPrefix_app.
  - intros [[? _]|(_ & [old Hr] & data & _ & ->)]%Update_store_level; [done|].
    rewrite !Count_scan. simpl.
    by rewrite (scan_length_overwrite _ _ _ _ old).
  - intros [[? _]|(_ & [old Hr] & ->)]%Delete_store_level; [done|].
    eexists. rewrite !Count_scan. simpl. split; [|done].
    rewrite (scan_length_delete db _ _ old Hr). by rewrite HasPrefix_app.
Qed.

(** X17: on the goleveldb adapter, when Get returns its mapping, the
    mapping has a key exactly when the store holds a record under
    (bucket, key): the keys are the physical keys of the scan with the
    prefix bucket_ trimmed. *)
Theorem level_get_keys_exact bucket (model : Model) db db' results key :
  Get bucket model db = (db', (Some results, None)) →
  is_Some (results !! key) ↔ is_Some (record db bucket key).
Proof. apply Get_keys_level. Qed.

(** X18: in every store the goleveldb adapter can produce from a new
    directory, every physical key has the form bucket_key of the Create
    that stored it, and its bytes are the json.Marshal encoding of some
    value. *)
Theorem level_reachable_records db p data :
  LevelStores.reachable db → db !! p = Some data →
  (∃ bucket key, p = (bucket +:+ "_") +:+ key) ∧
  ∃ value : Model, json_Marshal value = inr data.
Proof.
  intros Hdb. revert p data.
  induction Hdb as [|bucket0 db _ IH|bucket0 key0 model db _ IH
                    |bucket0 key0 db _ IH|bucket0 db _ IH
                    |bucket0 model db _ IH|bucket0 key0 model db _ IH
                    |bucket0 key0 model db _ IH]; intros p data Hp.
  - by rewrite lookup_empty in Hp.
  - rewrite Count_scan in Hp. by apply IH.
  - destruct (Create bucket0 key0 model db) as [db' r] eqn:Hop.
    apply Create_store_level in Hop as [[_ ->]|(_ & _ & data' & Hm & ->)];
      simpl in Hp; [by apply IH|].
    apply lookup_insert_Some in Hp as [[<- <-]|[_ Hp]]; [eauto|by apply IH].
  - destruct (Delete bucket0 key0 db) as [db' r] eqn:Hop.
    apply Delete_store_level in Hop as [[_ ->]|(_ & _ & ->)];
      simpl in Hp; [by apply IH|].
    apply lookup_delete_Some in Hp as [_ Hp]. by apply IH.
  - destruct (Drop_lookup bucket0 db) as (db' & Hdrop & Hdb').
    rewrite Hdrop in Hp. simpl in Hp. rewrite Hdb' in Hp.
    destruct (HasPrefix p _); [done|by apply IH].
  - rewrite Get_store_level in Hp. by apply IH.
  - rewrite Read_store_level in Hp. by apply IH.
  - destruct (Update bucket0 key0 model db) as [db' r] eqn:Hop.
    apply Update_store_level in Hop as [[_ ->]|(_ & _ & data' & Hm & ->)];
      simpl in Hp; [by apply IH|].
    apply lookup_insert_Some in Hp as [[<- <-]|[_ Hp]]; [eauto|by apply IH].
Qed.

(** X19: on the goleveldb adapter, for bucket names without an underscore
    two different (bucket, key) pairs never share a physical key, so
    Create, Update and Delete on one pair leave the record of the other as
    it is; for two different such buckets, Drop of one leaves every record
    of the other as it is, and Create in one does not change Count of the
    other. *)
Theorem level_underscore_free_isolation b b' k k' (value : Model) db :
  underscore_free b = true → underscore_free b' = true →
  (b, k) ≠ (b', k') →
  (b +:+ "_") +:+ k ≠ (b' +:+ "_") +:+ k' ∧
  record (Create b k value db).1 b' k' = record db b' k' ∧
  record (Update b k value db).1 b' k' = record db b' k' ∧
  record (Delete b k db).1 b' k' = record db b' k' ∧
  (b ≠ b' →
     record (Drop b db).1 b' k' = record db b' k' ∧
     (Count b' (Create b k value db).1).2 = (Count b' db).2).
Proof.
  intros Hb Hb' Hne.
  assert ((b' +:+ "_") +:+ k' ≠ (b +:+ "_") +:+ k) as Hphys.
  { intros Heq. destruct (physical_inj b' b k' k Hb' Hb Heq) as [-> ->]. done. }
  destruct (level_other_keys b k value db ((b' +:+ "_") +:+ k') Hphys)
    as (Hc & Hu & Hd).
  split; [done|]. split; [done|]. split; [done|]. split; [done|].
  intros Hbb. split.
  - destruct (Drop_lookup b db) as (db' & Hdrop & Hdb').
    rewrite Hdrop. unfold record. simpl. rewrite Hdb'.
    destruct (HasPrefix _ _) eqn:Hp; [|done].
    by apply prefix_own_bucket in Hp.
  - destruct (Create b k value db) as [db' r] eqn:Hop.
    apply Create_store_level in Hop as [[_ ->]|(_ & Hr & data & _ & ->)];
      [done|]. cbn [fst]. rewrite !Count_scan. cbn [snd].
    rewrite scan_length_insert by done.
    destruct (HasPrefix _ _) eqn:Hp; [|done].
    apply prefix_own_bucket in Hp; [|done..]. by subst.
Qed.

End level_extras.

(** ** Both adapters: undoing a Create *)
Section undo.
Context {Model : Type} `{!JSON Model}.

(** X20: a Delete right after a Create that returned nil returns nil and
    undoes it: on the goleveldb adapter the store is the one before the
    Create; on the bbolt adapter it is that store with the bucket ensured,
    so every record is as before the Create. *)
Theorem create_then_delete_restores (bucket key : string) (value : Model) :
  (∀ db db', BboltBackend.Create bucket key value db = (db', None) →
     BboltBackend.Delete bucket key db' =
       (<[bucket := BboltBackend.records db bucket]> db, None) ∧
     ∀ b k, BboltBackend.record
              (<[bucket := BboltBackend.records db bucket]> db) b k
            = BboltBackend.record db b k) ∧
  (∀ db db', LevelBackend.Create bucket key value db = (db', None) →
     LevelBackend.Delete bucket key db' = (db, None)).
Proof.
  split.
  - intros db db' (data & Hb & Hr & _ & _ & ->)%Create_inv. split.
    + rewrite (Delete_existing _ _ _ data); [|done|].
      * rewrite records_insert, insert_insert_eq.
        by rewrite delete_insert_id.
      * rewrite record_insert. apply lookup_insert_eq.
    + intros b k. apply record_ensured.
  - intros db db' (data & Hr & _ & ->)%Create_inv_level.
    rewrite (Delete_existing_level _ _ _ data) by apply lookup_insert_eq.
    by rewrite delete_insert_id.
Qed.

End undo.

(** * The further properties on the sample values *)
Section extra_samples.
Import Sample.

Lemma create_then_delete_restores_witness :
  BboltBackend.Delete "users" "u3"
    (BboltBackend.Create "users" "u3" (VBool true) users_bbolt).1 =
    (<["users" := BboltBackend.records users_bbolt "users"]> users_bbolt, None) ∧
  LevelBackend.Delete "users" "u3"
    (LevelBackend.Create "users" "u3" (VBool true) users_level).1 =
    (users_level, None).
Proof.
  destruct (create_then_delete_restores "users" "u3" (VBool true))
    as (Hb & Hl).
  split.
  - apply (Hb users_bbolt). vm_compute. reflexivity.
  - apply (Hl users_level). vm_compute. reflexivity.
Defined.

Lemma level_drop_clears_bucket_witness :
  ∃ db', LevelBackend.Drop "users" users_level = (db', None) ∧
         LevelBackend.record db' "users" "u1" = None ∧
         LevelBackend.Count "users" db' = (db', (0, None)).
Proof.
  destruct (level_drop_clears_bucket "users" (VBool false) users_level)
    as (db' & Hdrop & _ & Hnone & _ & Hcount).
  exists db'. split; [exact Hdrop|]. split; [apply Hnone|exact Hcount].
Defined.

Lemma reachable_users_level : LevelStores.reachable users_level.
Proof.
  do 2 apply LevelStores.reachable_Create. apply LevelStores.reachable_new.
Qed.

Lemma sample_codec_errors :
  (∀ v e, json_Marshal v = inl e → e ≠ runtime_nil_dereference) ∧
  (∀ data m e, (json_Unmarshal data m).2 = Some e →
               e ≠ runtime_nil_dereference).
Proof.
  split.
  - intros [[]|] e; simpl; intros [= <-]; discriminate.
  - intros data [b|] e; simpl.
    + repeat case_match; simpl; intros [= <-]; discriminate.
    + intros [= <-]. discriminate.
Qed.

Lemma bbolt_update_then_read_witness :
  json_Marshal (VBool false) = inr "false" ∧
  BboltBackend.Read "users" "u1" (VBool true)
    (BboltBackend.Update "users" "u1" (VBool false) users_bbolt).1 =
    ((BboltBackend.Update "users" "u1" (VBool false) users_bbolt).1,
     (VBool false, None)) ∧
  (∃ db', BboltBackend.Update "users" "u1" (VBool false) users_bbolt = (db', None)).
Proof.
  assert (json_Marshal (VBool false) = inr "false") as Hm by reflexivity.
  destruct (bbolt_update_then_read "users" "u1" (VBool false) (VBool true)
              "false" Hm) as (Hread & Hok).
  split; [exact Hm|]. split.
  - apply (Hread users_bbolt). vm_compute. reflexivity.
  - apply (Hok users_bbolt "true").
    + discriminate.
    + unfold bbolt.storable. split; [discriminate|]. vm_compute.
      split; discriminate.
    + vm_compute. reflexivity.
Defined.

Lemma bbolt_writes_are_local_witness :
  ("users", "u2") ≠ ("users", "u1") ∧
  BboltBackend.record
    (BboltBackend.Update "users" "u1" (VBool false) users_bbolt).1 "users" "u2"
  = BboltBackend.record users_bbolt "users" "u2" ∧
  BboltBackend.record (BboltBackend.Delete "users" "u1" users_bbolt).1
    "users" "u2"
  = BboltBackend.record users_bbolt "users" "u2".
Proof.
  assert (("users", "u2") ≠ ("users", "u1")) as Hne by discriminate.
  destruct (bbolt_writes_are_local "users" "u1" (VBool false) users_bbolt
              "users" "u2" Hne) as (_ & Hu & Hd).
  split; [exact Hne|]. split; [exact Hu|exact Hd].
Defined.

Lemma bbolt_failed_calls_keep_records_witness :
  BboltBackend.Create "ghost" "u1" VChan users_bbolt =
    (<["ghost" := ∅]> users_bbolt,
     Some (json_Error "json: unsupported type: chan int")) ∧
  BboltBackend.record (<["ghost" := ∅]> users_bbolt) "users" "u1" =
  BboltBackend.record users_bbolt "users" "u1".
Proof.
  assert (BboltBackend.Create "ghost" "u1" VChan users_bbolt =
          (<["ghost" := ∅]> users_bbolt,
           Some (json_Error "json: unsupported type: chan int"))) as Hop
    by (vm_compute; reflexivity).
  split; [exact Hop|].
  apply (bbolt_failed_calls_keep_records "ghost" "u1" VChan
           (json_Error "json: unsupported type: chan int")).
  left. exact Hop.
Defined.

Lemma bbolt_reads_keep_records_witness :
  is_Some (users_bbolt !! "users") ∧
  (BboltBackend.Read "users" "u1" (VBool false) users_bbolt).1 = users_bbolt ∧
  BboltBackend.record (BboltBackend.Get "ghost" (VBool false) users_bbolt).1
    "users" "u1"
  = BboltBackend.record users_bbolt "users" "u1".
Proof.
  assert (is_Some (users_bbolt !! "users")) as Hex by (eexists; reflexivity).
  destruct (bbolt_reads_keep_records "users" "u1" (VBool false) users_bbolt)
    as (_ & _ & _ & Hsame).
  destruct (bbolt_reads_keep_records "ghost" "u1" (VBool false) users_bbolt)
    as (_ & _ & Hget & _).
  split; [exact Hex|]. split; [apply (Hsame Hex)|apply Hget].
Defined.

Lemma bbolt_drop_removes_bucket_witness :
  is_Some (users_bbolt !! "users") ∧
  ∃ db', BboltBackend.Drop "users" users_bbolt = (db', None) ∧
         BboltBackend.record db' "users" "u1" = None ∧
         BboltBackend.Count "users" db' = (<["users" := ∅]> db', (0, None)).
Proof.
  assert (is_Some (users_bbolt !! "users")) as Hex by (eexists; reflexivity).
  destruct (bbolt_drop_removes_bucket "users" (VBool false) users_bbolt Hex)
    as (db' & Hdrop & _ & Hnone & _ & Hafter).
  split; [exact Hex|]. exists db'. split; [exact Hdrop|].
  split; [apply Hnone|]. apply Hafter. discriminate.
Defined.

Lemma bbolt_count_tracks_writes_witness :
  ∃ n : nat,
    (BboltBackend.Count "users" users_bbolt).2 = (int_of_nat n, None) ∧
    (BboltBackend.Count "users"
       (BboltBackend.Create "users" "u3" (VBool true) users_bbolt).1).2
    = (int_of_nat (S n), None).
Proof.
  destruct (bbolt_count_tracks_writes "users" "u3" (VBool true) users_bbolt
              (BboltBackend.Create "users" "u3" (VBool true) users_bbolt).1)
    as (Hcreate & _).
  apply Hcreate. vm_compute. reflexivity.
Defined.

Lemma bbolt_get_keys_exact_witness :
  BboltBackend.Get "users" (VBool false) users_bbolt =
    (users_bbolt,
     (Some (<["u1" := VBool true]> (<["u2" := VBool false]> ∅)), None)) ∧
  (is_Some ((<["u1" := VBool true]> (<["u2" := VBool false]> ∅) : gmap string value)
              !! "u2")
   ↔ is_Some (BboltBackend.record users_bbolt "users" "u2")).
Proof.
  assert (BboltBackend.Get "users" (VBool false) users_bbolt =
          (users_bbolt,
           (Some (<["u1" := VBool true]> (<["u2" := VBool false]> ∅)), None)))
    as Hget by (vm_compute; reflexivity).
  split; [exact Hget|].
  exact (bbolt_get_keys_exact "users" (VBool false) users_bbolt users_bbolt
           _ "u2" Hget).
Defined.

Lemma bbolt_reachable_records_witness :
  BboltBackend.record users_bbolt "users" "u1" = Some "true" ∧
  "users" ≠ EmptyString ∧ bbolt.storable "u1" "true" ∧
  ∃ v : value, json_Marshal v = inr "true".
Proof.
  assert (BboltBackend.record users_bbolt "users" "u1" = Some "true") as Hr
    by (vm_compute; reflexivity).
  split; [exact Hr|].
  exact (bbolt_reachable_records users_bbolt "users" "u1" "true"
           reachable_users_bbolt Hr).
Defined.

Lemma bbolt_refuses_unstorable_witness :
  ¬ bbolt.storable EmptyString "true" ∧
  BboltBackend.Create "users" EmptyString (VBool true) users_bbolt =
    (users_bbolt, Some bbolt_ErrKeyRequired).
Proof.
  assert (¬ bbolt.storable EmptyString "true") as Hs by (intros [? _]; done).
  assert (json_Marshal (VBool true) = inr "true") as Hm by reflexivity.
  assert ("users" ≠ EmptyString) as Hb by discriminate.
  destruct (bbolt_refuses_unstorable "users" EmptyString (VBool true) "true"
              users_bbolt Hb Hm Hs) as (e & _ & He & Hcreate & _).
  split; [exact Hs|].
  rewrite Hcreate by (vm_compute; reflexivity).
  rewrite (He eq_refl). vm_compute. reflexivity.
Defined.

Lemma bbolt_no_nil_dereference_witness :
  (BboltBackend.Get "users" VChan users_bbolt).2.2
    ≠ Some runtime_nil_dereference ∧
  (BboltBackend.Create "ghost" "u1" VChan users_bbolt).2
    ≠ Some runtime_nil_dereference.
Proof.
  destruct sample_codec_errors as (Hmarshal & Hunmarshal).
  destruct (bbolt_no_nil_dereference "users" "u1" VChan VChan users_bbolt
              Hmarshal Hunmarshal) as (_ & _ & _ & _ & Hget & _).
  destruct (bbolt_no_nil_dereference "ghost" "u1" VChan VChan users_bbolt
              Hmarshal Hunmarshal) as (_ & Hcreate & _).
  split; [exact Hget|exact Hcreate].
Defined.

Lemma bbolt_get_and_create_ensure_bucket_witness :
  users_bbolt !! "ghost" = None ∧
  BboltBackend.Get "ghost" (VBool false) users_bbolt =
    (<["ghost" := ∅]> users_bbolt, (Some ∅, None)) ∧
  BboltBackend.Create "ghost" "u1" VChan users_bbolt =
    (<["ghost" := ∅]> users_bbolt,
     Some (json_Error "json: unsupported type: chan int")).
Proof.
  assert (users_bbolt !! "ghost" = None) as Hdb by (vm_compute; reflexivity).
  assert ("ghost" ≠ EmptyString) as Hb by discriminate.
  destruct (bbolt_get_and_create_ensure_bucket "ghost" "u1" VChan (VBool false)
              (json_Error "json: unsupported type: chan int") users_bbolt
              Hb Hdb) as (Hget & Hcreate).
  split; [exact Hdb|]. split; [exact Hget|]. apply Hcreate. reflexivity.
Defined.

Lemma bbolt_delete_keeps_bucket_witness :
  is_Some ((BboltBackend.Delete "users" "u2"
              (BboltBackend.Delete "users" "u1" users_bbolt).1).1 !! "users").
Proof.
  apply (bbolt_delete_keeps_bucket "users" "u2"
           (BboltBackend.Delete "users" "u1" users_bbolt).1).
  vm_compute. reflexivity.
Defined.

Lemma level_update_then_read_witness :
  json_Marshal (VBool false) = inr "false" ∧
  LevelBackend.Read "users" "u1" (VBool true)
    (LevelBackend.Update "users" "u1" (VBool false) users_level).1 =
    ((LevelBackend.Update "users" "u1" (VBool false) users_level).1,
     (VBool false, None)).
Proof.
  assert (json_Marshal (VBool false) = inr "false") as Hm by reflexivity.
  destruct (level_update_then_read "users" "u1" (VBool false) (VBool true)
              "false" Hm) as (Hread & _).
  split; [exact Hm|]. apply (Hread users_level). vm_compute. reflexivity.
Defined.

Lemma level_writes_are_local_witness :
  (LevelBackend.Delete "users" "u1" users_level).1 !! "users_u2" =
  users_level !! "users_u2" ∧
  (LevelBackend.Update "users" "u3" (VBool true) users_level).1 = users_level.
Proof.
  destruct (level_writes_are_local "users" "u1" (VBool true) users_level)
    as (Hother & _).
  destruct (level_writes_are_local "users" "u3" (VBool true) users_level)
    as (_ & Hfail).
  split.
  - apply (Hother "users_u2"). discriminate.
  - apply (Hfail _ leveldb_ErrNotFound). right. left.
    vm_compute. reflexivity.
Defined.

Lemma level_count_tracks_writes_witness :
  ∃ n : nat,
    (LevelBackend.Count "users" users_level).2 = (int_of_nat (S n), None) ∧
    (LevelBackend.Count "users"
       (LevelBackend.Delete "users" "u1" users_level).1).2
    = (int_of_nat n, None).
Proof.
  destruct (level_count_tracks_writes "users" "u1" (VBool true) users_level
              (LevelBackend.Delete "users" "u1" users_level).1)
    as (_ & _ & Hdelete).
  apply Hdelete. vm_compute. reflexivity.
Defined.

Lemma level_get_keys_exact_witness :
  LevelBackend.Get "users" (VBool false) users_level =
    (users_level,
     (Some (<["u1" := VBool true]> (<["u2" := VBool false]> ∅)), None)) ∧
  (is_Some ((<["u1" := VBool true]> (<["u2" := VBool false]> ∅) : gmap string value)
              !! "u3")
   ↔ is_Some (LevelBackend.record users_level "users" "u3")).
Proof.
  assert (LevelBackend.Get "users" (VBool false) users_level =
          (users_level,
           (Some (<["u1" := VBool true]> (<["u2" := VBool false]> ∅)), None)))
    as Hget by (vm_compute; reflexivity).
  split; [exact Hget|].
  exact (level_get_keys_exact "users" (VBool false) users_level users_level
           _ "u3" Hget).
Defined.

Lemma level_reachable_records_witness :
  users_level !! "users_u2" = Some "false" ∧
  (∃ bucket key, "users_u2" = (bucket +:+ "_") +:+ key) ∧
  ∃ v : value, json_Marshal v = inr "false".
Proof.
  assert (users_level !! "users_u2" = Some "false") as Hp
    by (vm_compute; reflexivity).
  split; [exact Hp|].
  exact (level_reachable_records users_level "users_u2" "false"
           reachable_users_level Hp).
Defined.

Lemma level_underscore_free_isolation_witness :
  underscore_free "users" = true ∧ underscore_free "posts" = true ∧
  ("users", "u1") ≠ ("posts", "u1") ∧
  LevelBackend.record (LevelBackend.Drop "users" users_level).1 "posts" "u1" =
  LevelBackend.record users_level "posts" "u1" ∧
  (LevelBackend.Count "posts"
     (LevelBackend.Create "users" "u1" (VBool true) users_level).1).2 =
  (LevelBackend.Count "posts" users_level).2.
Proof.
  assert (underscore_free "users" = true) as Hb by reflexivity.
  assert (underscore_free "posts" = true) as Hb' by reflexivity.
  assert (("users", "u1") ≠ ("posts", "u1")) as Hne by discriminate.
  destruct (level_underscore_free_isolation "users" "posts" "u1" "u1"
              (VBool true) users_level Hb Hb' Hne) as (_ & _ & _ & _ & Hdiff).
  split; [exact Hb|]. split; [exact Hb'|]. split; [exact Hne|].
  apply Hdiff. discriminate.
Defined.

End extra_samples.

(** * Prefix scans across buckets of the goleveldb adapter *)
Section prefix_scans.
Context {Model : Type} `{!JSON Model}.


End prefix_scans.

Section prefix_scans_sample.
Import Sample.


End prefix_scans_sample.
